(** * changelog-action: a shallow embedding of [index.js]

    The action is one [async function main ()].  Its stages are embedded
    here as pure functions, one per block of the source, and composed again
    in [main]:

    - lines 38-90   [resolveTags]      tag / fromTag / toTag to two references
    - lines 94-114  [fetchCommits]     the paginated [do ... while] loop
    - lines 122-163 [parseCommits]     conventional-commit parsing with fallback
    - lines 169-171 the optional [commitsParsed.reverse()]
    - lines 175-248 [buildBlocks]      the Slack block sequence
    - lines 257-280 [deliverOrEmit]    chat.postMessage or the [payload] output

    Strings are sequences of characters with a code below 256 ([string]:
    the code units of JavaScript in the Latin-1 range); arrays are lists;
    an absent or [null] property is [None]. *)

From Stdlib Require Import Ascii String.
From stdpp Require Import base list strings.

(** ** The JavaScript primitives the action calls *)

Module JS.

(** [s ? _ : _] on a string: the empty string is falsy. *)
Definition truthy (s : string) : bool :=
  match s with
  | EmptyString => false
  | String _ _ => true
  end.

(** [o ? _ : _] on a property that may be absent, [null] or a string. *)
Definition truthy_opt (o : option string) : bool :=
  match o with
  | None => false
  | Some s => truthy s
  end.

(** [s.split(sep)] for a one-character separator.  The result is never
    empty: [''.split(',')] is [['']]. *)
Fixpoint split (sep : ascii) (s : string) : list string :=
  match s with
  | EmptyString => [EmptyString]
  | String c s' =>
      if Ascii.eqb c sep then EmptyString :: split sep s'
      else match split sep s' with
           | [] => [String c EmptyString]
           | piece :: pieces => String c piece :: pieces
           end
  end.

(** The white space and line terminators that [trim] strips, among the
    characters below 256: tab, line feed, vertical tab, form feed,
    carriage return, space and the no-break space U+00A0. *)
Definition is_white_space (c : ascii) : bool :=
  match c with
  | "009" | "010" | "011" | "012" | "013" | " " | "160" => true
  | _ => false
  end%char.

Fixpoint trimStart (s : string) : string :=
  match s with
  | EmptyString => EmptyString
  | String c s' => if is_white_space c then trimStart s' else s
  end.

Fixpoint trimEnd (s : string) : string :=
  match s with
  | EmptyString => EmptyString
  | String c s' =>
      match trimEnd s' with
      | EmptyString => if is_white_space c then EmptyString
                       else String c EmptyString
      | rest => String c rest
      end
  end.

(** [s.trim()] *)
Definition trim (s : string) : string := trimEnd (trimStart s).

(** [s.substring(0, n)] *)
Fixpoint substring0 (n : nat) (s : string) : string :=
  match n, s with
  | S n', String c s' => String c (substring0 n' s')
  | _, _ => EmptyString
  end.

(** The lower-case mapping of the characters below 256: the letters A-Z
    and the Latin-1 capitals U+00C0-U+00DE, the multiplication sign U+00D7
    apart, move up by 32; the other characters are kept. *)
Definition lower_char (c : ascii) : ascii :=
  let n := nat_of_ascii c in
  if ((65 <=? n) && (n <=? 90))
     || ((192 <=? n) && (n <=? 222) && negb (n =? 215))
  then ascii_of_nat (n + 32) else c.

(** [s.toLowerCase()] *)
Fixpoint toLowerCase (s : string) : string :=
  match s with
  | EmptyString => EmptyString
  | String c s' => String (lower_char c) (toLowerCase s')
  end.

(** [xs.includes(x)] *)
Definition includes (xs : list string) (x : string) : bool :=
  existsb (String.eqb x) xs.

(** lodash [_.intersection(xs, ys)]: the values of [xs] that are also in
    [ys], each once, in the order of their first occurrence in [xs]. *)
Fixpoint intersection_from (seen xs ys : list string) : list string :=
  match xs with
  | [] => []
  | x :: xs' =>
      if includes ys x && negb (includes seen x)
      then x :: intersection_from (x :: seen) xs' ys
      else intersection_from seen xs' ys
  end.

Definition intersection (xs ys : list string) : list string :=
  intersection_from [] xs ys.

End JS.

(** ** Data *)

(** One row of the [types] table (lines 7-18). *)
Module Rule.
Record t := mk {
  types : list string;
  header : string;
  icon : string;
  relIssuePrefix : option string
}.
End Rule.

Definition types : list Rule.t := [
  Rule.mk ["feat"; "feature"] "New Features" ":sparkles:" None;
  Rule.mk ["fix"; "bugfix"] "Bug Fixes" ":bug:" (Some "fixes");
  Rule.mk ["perf"] "Performance Improvements" ":zap:" None;
  Rule.mk ["refactor"] "Refactors" ":recycle:" None;
  Rule.mk ["test"; "tests"] "Tests" ":white_check_mark:" None;
  Rule.mk ["build"; "ci"] "Build System" ":construction_worker:" None;
  Rule.mk ["doc"; "docs"] "Documentation Changes" ":memo:" None;
  Rule.mk ["style"] "Code Style Changes" ":art:" None;
  Rule.mk ["chore"] "Chores" ":wrench:" None;
  Rule.mk ["other"] "Other Changes" ":flying_saucer:" None
].

(** A tag reference: a node of the [lastTags] query ([name], [target.oid]),
    or the literal [{ name: fromTag }] that carries no target. *)
Record TagRef := mkTagRef {
  name : string;
  target_oid : option string
}.

(** [commit.author] of the compare response; [null] for an unknown user. *)
Record GhUser := mkGhUser {
  login : string;
  user_html_url : string
}.

(** One element of [data.commits]. *)
Record Commit := mkCommit {
  sha : string;
  message : string;            (* commit.commit.message *)
  html_url : string;
  author : option GhUser
}.

(** [_.get(commit, 'author.login')] and [_.get(commit, 'author.html_url')] *)
Definition author_login (c : Commit) : option string := login <$> author c.
Definition author_html_url (c : Commit) : option string :=
  user_html_url <$> author c.

(** The response of [compareCommitsWithBasehead], as read through
    [_.get(_, 'data.total_commits', 0)] and [_.get(_, 'data.commits', [])]. *)
Record CompareResponse := mkCompareResponse {
  data_total_commits : nat;
  data_commits : list Commit
}.

Record Note := mkNote {
  title : string;
  text : string
}.

(** The fields of [cc.toConventionalChangelogFormat] that the action reads. *)
Record CAst := mkCAst {
  ast_type : string;
  ast_scope : option string;
  ast_subject : string;
  ast_notes : list Note
}.

(** An element of [commitsParsed].  The fallback object of line 150 has
    neither a [scope] nor a [notes] property. *)
Record ParsedCommit := mkParsedCommit {
  pc_type : string;
  pc_scope : option string;
  pc_subject : string;
  pc_notes : option (list Note);
  pc_sha : string;
  pc_url : string;
  pc_author : option string;
  pc_authorUrl : option string
}.

(** An element of [breakingChanges]. *)
Record BreakingChange := mkBreakingChange {
  bc_sha : string;
  bc_url : string;
  bc_subject : string;
  bc_author : option string;
  bc_authorUrl : option string;
  bc_text : string
}.

(** An element of [slackBlocks]:
    [{ type: 'header', text: { type: 'plain_text', text, emoji: true } }],
    [{ type: 'section', text: { type: 'mrkdwn', text } }] and
    [{ type: 'divider' }]. *)
Inductive Block :=
| Header (text : string)
| Section (text : string)
| Divider.

Record Payload := mkPayload {
  payload_text : string;
  blocks : list Block
}.

(** The action's inputs, as [core.getInput] and [core.getBooleanInput]
    return them. *)
Record Inputs := mkInputs {
  in_tag : string;
  in_fromTag : string;
  in_toTag : string;
  in_title : string;
  in_slackBotToken : string;
  in_slackChannelId : string;
  in_excludeTypes : string;
  in_includeInvalidCommits : bool;
  in_reverseOrder : bool
}.

(** The calls to [core.setFailed] that end the run. *)
Inductive Failure :=
| AmbiguousRangeInput (both : bool)
| NoLatestTag
| NoPreviousTag
| TagMismatch (tag : string)
| NoCommitsInRange.

Definition failure_message (f : Failure) : string :=
  match f with
  | AmbiguousRangeInput true =>
      "Must provide EITHER input tag OR (fromTag and toTag), not both!"
  | AmbiguousRangeInput false =>
      "Must provide either input tag OR (fromTag and toTag). None were provided!"
  | NoLatestTag =>
      "Couldn't find the latest tag. Make sure you have an existing tag already before creating a new one."
  | NoPreviousTag =>
      "Couldn't find a previous tag. Make sure you have at least 2 tags already (current tag + previous initial tag)."
  | TagMismatch tag => "Provided tag doesn't match latest tag " +:+ tag +:+ "."
  | NoCommitsInRange =>
      "Couldn't find any commits between latest and previous tags."
  end.

(** The request sent to [chat.postMessage] for one channel: the bearer
    token and the body [{ channel: channelId, ...payload }]. *)
Record PostRequest := mkPostRequest {
  bearer : string;
  channel : string;
  body : Payload
}.

(** [res.status] and [await res.text()] *)
Record PostResponse := mkPostResponse {
  status : nat;
  resdata : string
}.

(** How a run of [main] ends. *)
Inductive Outcome :=
| Failed (f : Failure)
    (* [return core.setFailed(...)] *)
| Posted (results : list (PostRequest * PostResponse))
    (* one [chat.postMessage] per element of [slackChannelIds] *)
| Output (key value : string).
    (* [core.setOutput(key, value)] *)

(** ** The stages of [main] *)

Section Action.

(** The collaborators: the nodes of the [lastTags] GraphQL query, the
    compare endpoint by [basehead] and [page], the conventional-commit
    parser ([None] when [cc.parser] throws), the Slack endpoint and
    [JSON.stringify]. *)
Variable lastTags : list TagRef.
Variable compareCommitsWithBasehead : string -> nat -> CompareResponse.
Variable parser : string -> option CAst.
Variable postMessage : PostRequest -> PostResponse.
Variable JSON_stringify : Payload -> string.

(** *** Lines 38-90: the tag range *)

Definition resolveTags (tag fromTag toTag : string)
  : Failure + TagRef * TagRef :=
  if JS.truthy tag && (JS.truthy fromTag || JS.truthy toTag) then
    inl (AmbiguousRangeInput true)
  else if JS.truthy tag then
    match lastTags !! 0, lastTags !! 1 with
    | None, _ => inl NoLatestTag
    | Some _, None => inl NoPreviousTag
    | Some latestTag, Some previousTag =>
        if negb (String.eqb (name latestTag) tag) then inl (TagMismatch tag)
        else inr (latestTag, previousTag)
    end
  else if JS.truthy fromTag && JS.truthy toTag then
    inr (mkTagRef fromTag None, mkTagRef toTag None)
  else
    inl (AmbiguousRangeInput false).

(** *** Lines 94-114: the commits of the range, page by page *)

Definition basehead (previousTag latestTag : TagRef) : string :=
  name previousTag +:+ "..." +:+ name latestTag.

(** One turn of the [do ... while (hasMoreCommits)] loop per unit of
    [fuel]; [curPage] and [commits] are the variables of the source and
    [requested] records the [page] argument of every request made.
    [None] when the fuel runs out before the loop ends. *)
Fixpoint fetchLoop (fuel : nat) (range : string) (curPage : nat)
    (commits : list Commit) (requested : list nat)
  : option (list Commit * list nat) :=
  match fuel with
  | 0 => None
  | S fuel' =>
      let curPage := curPage + 1 in
      let commitsRaw := compareCommitsWithBasehead range curPage in
      let totalCommits := data_total_commits commitsRaw in
      let rangeCommits := data_commits commitsRaw in
      let commits := commits ++ rangeCommits in
      let requested := requested ++ [curPage] in
      if (curPage - 1) * 100 + length rangeCommits <? totalCommits
      then fetchLoop fuel' range curPage commits requested
      else Some (commits, requested)
  end.

Definition fetchCommits (fuel : nat) (range : string)
  : option (list Commit * list nat) :=
  fetchLoop fuel range 0 [] [].

(** *** Lines 122-163: parsing *)

Definition breakingChangeOf (commit : Commit) (cAst : CAst) (note : Note)
  : BreakingChange :=
  {| bc_sha := sha commit;
     bc_url := html_url commit;
     bc_subject := ast_subject cAst;
     bc_author := author_login commit;
     bc_authorUrl := author_html_url commit;
     bc_text := text note |}.

(** The body of [for (const note of cAst.notes)]. *)
Definition noteStep (commit : Commit) (cAst : CAst)
    (breakingChanges : list BreakingChange) (note : Note)
  : list BreakingChange :=
  if String.eqb (title note) "BREAKING CHANGE"
  then breakingChanges ++ [breakingChangeOf commit cAst note]
  else breakingChanges.

Definition parsedOf (commit : Commit) (cAst : CAst) : ParsedCommit :=
  {| pc_type := JS.toLowerCase (ast_type cAst);
     pc_scope := ast_scope cAst;
     pc_subject := ast_subject cAst;
     pc_notes := Some (ast_notes cAst);
     pc_sha := sha commit;
     pc_url := html_url commit;
     pc_author := author_login commit;
     pc_authorUrl := author_html_url commit |}.

Definition fallbackOf (commit : Commit) : ParsedCommit :=
  {| pc_type := "other";
     pc_scope := None;
     pc_subject := message commit;
     pc_notes := None;
     pc_sha := sha commit;
     pc_url := html_url commit;
     pc_author := author_login commit;
     pc_authorUrl := author_html_url commit |}.

(** The body of [for (const commit of commits)]: the [try] block when
    the parser returns, the [catch] block when it throws. *)
Definition parseStep (includeInvalidCommits : bool)
    (st : list ParsedCommit * list BreakingChange) (commit : Commit)
  : list ParsedCommit * list BreakingChange :=
  let '(commitsParsed, breakingChanges) := st in
  match parser (message commit) with
  | Some cAst =>
      (commitsParsed ++ [parsedOf commit cAst],
       fold_left (noteStep commit cAst) (ast_notes cAst) breakingChanges)
  | None =>
      if includeInvalidCommits
      then (commitsParsed ++ [fallbackOf commit], breakingChanges)
      else (commitsParsed, breakingChanges)
  end.

Definition parseCommits (includeInvalidCommits : bool)
    (commits : list Commit)
  : list ParsedCommit * list BreakingChange :=
  fold_left (parseStep includeInvalidCommits) commits ([], []).

(** *** Lines 175-248: the blocks *)

(** Lines 179-188. *)
Definition titleBlocks (title : string) : list Block :=
  if negb (String.eqb title "") then [Header title] else [].

(** Line 202. *)
Definition breakingText (breakChange : BreakingChange) : string :=
  match bc_author breakChange with
  | Some author =>
      if JS.truthy author
      then bc_subject breakChange +:+ " *(by @" +:+ author +:+ ")*"
      else bc_subject breakChange
  | None => bc_subject breakChange
  end.

(** Lines 192-212 on the state [(idx, slackBlocks)]. *)
Definition breakingStep (breakingChanges : list BreakingChange)
    (st : nat * list Block) : nat * list Block :=
  let '(idx, slackBlocks) := st in
  if 0 <? length breakingChanges then
    (idx + 1,
     (slackBlocks ++ [Section ":boom: *BREAKING CHANGES*"])
       ++ map (fun breakChange => Section (breakingText breakChange))
              breakingChanges)
  else (idx, slackBlocks).

(** Line 232. *)
Definition typeText (type : Rule.t) : string :=
  Rule.icon type +:+ " *" +:+ Rule.header type +:+ "*".

(** Lines 237-238. *)
Definition slackScope (commit : ParsedCommit) : string :=
  match pc_scope commit with
  | Some scope => if JS.truthy scope then "*" +:+ scope +:+ "*: " else ""
  | None => ""
  end.

Definition commitText (commit : ParsedCommit) : string :=
  let short := JS.substring0 7 (pc_sha commit) in
  match pc_author commit with
  | Some author =>
      if JS.truthy author
      then slackScope commit +:+ pc_subject commit +:+ " by " +:+ author
             +:+ " " +:+ short
      else slackScope commit +:+ pc_subject commit +:+ " " +:+ short
  | None => slackScope commit +:+ pc_subject commit +:+ " " +:+ short
  end.

(** Line 218. *)
Definition matching (type : Rule.t) (commitsParsed : list ParsedCommit)
  : list ParsedCommit :=
  List.filter (fun c => JS.includes (Rule.types type) (pc_type c))
              commitsParsed.

(** Line 215. *)
Definition excluded (excludeTypes : list string) (type : Rule.t) : bool :=
  0 <? length (JS.intersection (Rule.types type) excludeTypes).

(** The body of [for (const type of types)] (lines 214-248) on the state
    [(idx, slackBlocks)]; a [continue] leaves the state as it is. *)
Definition typeStep (excludeTypes : list string)
    (commitsParsed : list ParsedCommit)
    (st : nat * list Block) (type : Rule.t) : nat * list Block :=
  let '(idx, slackBlocks) := st in
  if excluded excludeTypes type then st
  else
    let matchingCommits := matching type commitsParsed in
    if length matchingCommits <? 1 then st
    else
      let slackBlocks :=
        if 0 <? idx then slackBlocks ++ [Divider] else slackBlocks in
      (idx + 1,
       (slackBlocks ++ [Section (typeText type)])
         ++ map (fun commit => Section (commitText commit)) matchingCommits).

Definition buildBlocks (title : string)
    (breakingChanges : list BreakingChange)
    (commitsParsed : list ParsedCommit) (excludeTypes : list string)
  : list Block :=
  let st := (0, titleBlocks title) in
  let st := breakingStep breakingChanges st in
  snd (fold_left (typeStep excludeTypes commitsParsed) types st).

(** *** Lines 257-280: the sink *)

(** Lines 27 and 28: [(input || '').split(',').map(t => t.trim())]. *)
Definition commaList (input : string) : list string :=
  map JS.trim (JS.split "," input).

Definition deliverOrEmit (slackBotToken : string)
    (slackChannelIds : list string) (payload : Payload) : Outcome :=
  if (0 <? String.length slackBotToken) && (0 <? length slackChannelIds)
  then
    Posted (map (fun channelId =>
                   let req := mkPostRequest slackBotToken channelId payload in
                   (req, postMessage req))
                slackChannelIds)
  else Output "payload" (JSON_stringify payload).

(** The calls [core.setFailed(resdata)] of line 273.  The posts run under
    [Promise.all] and each callback reports its own response when it
    comes back, so the calls are made in the order [arrived] in which the
    responses arrive, some permutation of the posts. *)
Definition deliveryFailures (arrived : list (PostRequest * PostResponse))
  : list string :=
  map (fun r => resdata (snd r))
      (List.filter (fun r => negb (status (snd r) =? 200)) arrived).

(** *** The whole run *)

(** Lines 122-253: from the fetched commits to the payload. *)
Definition changelog (inp : Inputs) (commits : list Commit) : Payload :=
  let excludeTypes := commaList (in_excludeTypes inp) in
  let '(commitsParsed, breakingChanges) :=
    parseCommits (in_includeInvalidCommits inp) commits in
  let commitsParsed :=
    if in_reverseOrder inp then rev commitsParsed else commitsParsed in
  let slackBlocks :=
    buildBlocks (in_title inp) breakingChanges commitsParsed excludeTypes in
  mkPayload (in_title inp) slackBlocks.

Definition main (fuel : nat) (inp : Inputs) : option Outcome :=
  let slackChannelIds := commaList (in_slackChannelId inp) in
  match resolveTags (in_tag inp) (in_fromTag inp) (in_toTag inp) with
  | inl failure => Some (Failed failure)
  | inr (latestTag, previousTag) =>
      match fetchCommits fuel (basehead previousTag latestTag) with
      | None => None
      | Some (commits, _) =>
          if length commits <? 1 then Some (Failed NoCommitsInRange)
          else
            Some (deliverOrEmit (in_slackBotToken inp) slackChannelIds
                                (changelog inp commits))
      end
  end.

End Action.

Arguments resolveTags lastTags tag fromTag toTag : assert.
Arguments fetchLoop compareCommitsWithBasehead fuel range curPage commits
  requested : assert.
Arguments fetchCommits compareCommitsWithBasehead fuel range : assert.
Arguments parseStep parser includeInvalidCommits st commit : assert.
Arguments parseCommits parser includeInvalidCommits commits : assert.
Arguments deliverOrEmit postMessage JSON_stringify slackBotToken
  slackChannelIds payload : assert.
Arguments changelog parser inp commits : assert.
Arguments main lastTags compareCommitsWithBasehead parser postMessage
  JSON_stringify fuel inp : assert.

(** ** Views of the loops used in the proofs *)

(** What one commit adds to [commitsParsed] and to [breakingChanges]. *)
Definition parsedFrom (parser : string -> option CAst)
    (includeInvalidCommits : bool) (commit : Commit) : list ParsedCommit :=
  match parser (message commit) with
  | Some cAst => [parsedOf commit cAst]
  | None => if includeInvalidCommits then [fallbackOf commit] else []
  end.

Definition isBreaking (note : Note) : bool :=
  String.eqb (title note) "BREAKING CHANGE".

Definition breakingFrom (parser : string -> option CAst) (commit : Commit)
  : list BreakingChange :=
  match parser (message commit) with
  | Some cAst =>
      map (breakingChangeOf commit cAst) (List.filter isBreaking (ast_notes cAst))
  | None => []
  end.

(** The blocks of lines 192-212. *)
Definition breakingBlocks (breakingChanges : list BreakingChange)
  : list Block :=
  match breakingChanges with
  | [] => []
  | _ :: _ =>
      Section ":boom: *BREAKING CHANGES*"
        :: map (fun breakChange => Section (breakingText breakChange))
               breakingChanges
  end.

(** The rules that get a section: not excluded and with a commit. *)
Definition isRendered (excludeTypes : list string)
    (commitsParsed : list ParsedCommit) (type : Rule.t) : bool :=
  negb (excluded excludeTypes type)
  && negb (length (matching type commitsParsed) <? 1).

Definition renderedTypes (excludeTypes : list string)
    (commitsParsed : list ParsedCommit) : list Rule.t :=
  List.filter (isRendered excludeTypes commitsParsed) types.

Definition commitLines (type : Rule.t) (commitsParsed : list ParsedCommit)
  : list Block :=
  map (fun commit => Section (commitText commit)) (matching type commitsParsed).

(** The section of one rule: its heading, then one line per commit. *)
Definition groupBlocks (commitsParsed : list ParsedCommit) (type : Rule.t)
  : list Block :=
  Section (typeText type) :: commitLines type commitsParsed.

(** Groups in sequence, a [Divider] before each but the first when
    [first] holds. *)
Fixpoint joinGroups (first : bool) (groups : list (list Block))
  : list Block :=
  match groups with
  | [] => []
  | g :: groups' =>
      (if first then g else Divider :: g) ++ joinGroups false groups'
  end.

Definition noBreaking (breakingChanges : list BreakingChange) : bool :=
  match breakingChanges with [] => true | _ :: _ => false end.

(** ** Notions used to state the properties *)

(** [ceil(T / 100)]: the number of pages of 100 that hold [T] commits. *)
Definition pagesOf (T : nat) : nat := (T + 99) / 100.

(** A compare endpoint (for one range) that declares [T] commits on each
    of the pages that hold them (on page 1 when there is none) and serves
    them in full pages of 100, the last one possibly partial. *)
Definition wellPaged (endpoint : nat -> CompareResponse) (T : nat) : Prop :=
  forall page, 1 <= page <= 1 `max` pagesOf T ->
    data_total_commits (endpoint page) = T
    /\ length (data_commits (endpoint page)) = 100 `min` (T - (page - 1) * 100).

(** The commits of pages [1 .. n], in page order. *)
Definition pagesUpTo (endpoint : nat -> CompareResponse) (n : nat)
  : list Commit :=
  concat (map (fun page => data_commits (endpoint page)) (seq 1 n)).

(** The heading of one of the rules of the table. *)
Definition isTypeHeading (b : Block) : Prop :=
  exists type, In type types /\ b = Section (typeText type).

(** The inputs [inp] with [reverseOrder] set to [flag]. *)
Definition withReverseOrder (flag : bool) (inp : Inputs) : Inputs :=
  {| in_tag := in_tag inp; in_fromTag := in_fromTag inp;
     in_toTag := in_toTag inp; in_title := in_title inp;
     in_slackBotToken := in_slackBotToken inp;
     in_slackChannelId := in_slackChannelId inp;
     in_excludeTypes := in_excludeTypes inp;
     in_includeInvalidCommits := in_includeInvalidCommits inp;
     in_reverseOrder := flag |}.

(** ** A sample repository *)

Module Sample.

Definition octocat : GhUser := mkGhUser "octocat" "https://github.com/octocat".
Definition hubot : GhUser := mkGhUser "hubot" "https://github.com/hubot".

Definition fixA : Commit :=
  mkCommit "abc1234f0e9d8c7b6a5f4e3d2c1b0a9f8e7d6c5b" "fix: a"
    "https://github.com/acme/widget/commit/abc1234" (Some octocat).

Definition featB : Commit :=
  mkCommit "def5678a1b2c3d4e5f60718293a4b5c6d7e8f901" "feat: b"
    "https://github.com/acme/widget/commit/def5678" (Some hubot).

Definition choreMessage : string :=
  "chore: drop v1" +:+ String "010" (String "010" "BREAKING CHANGE: removes v1 API").

Definition choreBreaking : Commit :=
  mkCommit "0a1b2c3d4e5f60718293a4b5c6d7e8f9012345ab" choreMessage
    "https://github.com/acme/widget/commit/0a1b2c3" None.

Definition wip : Commit :=
  mkCommit "77aa88bb99cc00dd11ee22ff33445566778899aa" "updated stuff"
    "https://github.com/acme/widget/commit/77aa88b" (Some octocat).

(** The parser on the messages of the sample; it rejects the others. *)
Definition parser (msg : string) : option CAst :=
  if String.eqb msg "fix: a" then Some (mkCAst "fix" None "a" [])
  else if String.eqb msg "feat: b" then Some (mkCAst "feat" None "b" [])
  else if String.eqb msg choreMessage then
    Some (mkCAst "chore" None "drop v1"
            [mkNote "BREAKING CHANGE" "removes v1 API"])
  else None.

Definition tags : list TagRef :=
  [mkTagRef "v1.1.0" (Some "abc1234f0e9d8c7b6a5f4e3d2c1b0a9f8e7d6c5b");
   mkTagRef "v1.0.0" (Some "5566778899aabbccddeeff00112233445566aabb")].

(** An endpoint that serves [history] in pages of 100 for every range. *)
Definition serve (history : list Commit) (range : string) (page : nat)
  : CompareResponse :=
  mkCompareResponse (length history)
    (take 100 (drop ((page - 1) * 100) history)).

Definition postOk (req : PostRequest) : PostResponse :=
  mkPostResponse 200 "ok".

(** [JSON.stringify] on payloads of one-byte characters. *)
Definition dq : string := String "034" EmptyString.

Definition hexDigit (n : nat) : ascii :=
  if n <? 10 then ascii_of_nat (48 + n) else ascii_of_nat (87 + n).

Definition escapeChar (c : ascii) : string :=
  let n := nat_of_ascii c in
  if n =? 34 then "\" +:+ dq
  else if n =? 92 then "\\"
  else if n =? 8 then "\b"
  else if n =? 9 then "\t"
  else if n =? 10 then "\n"
  else if n =? 12 then "\f"
  else if n =? 13 then "\r"
  else if n <? 32 then
    "\u00" +:+ String (hexDigit (n / 16)) (String (hexDigit (n mod 16)) "")
  else String c "".

Fixpoint escape (s : string) : string :=
  match s with
  | EmptyString => EmptyString
  | String c s' => escapeChar c +:+ escape s'
  end.

Definition quoted (s : string) : string := dq +:+ escape s +:+ dq.

Definition field (key value : string) : string := quoted key +:+ ":" +:+ value.

Definition blockJson (b : Block) : string :=
  match b with
  | Header t =>
      "{" +:+ field "type" (quoted "header") +:+ ","
        +:+ field "text"
              ("{" +:+ field "type" (quoted "plain_text") +:+ ","
                 +:+ field "text" (quoted t) +:+ ","
                 +:+ field "emoji" "true" +:+ "}")
        +:+ "}"
  | Section t =>
      "{" +:+ field "type" (quoted "section") +:+ ","
        +:+ field "text"
              ("{" +:+ field "type" (quoted "mrkdwn") +:+ ","
                 +:+ field "text" (quoted t) +:+ "}")
        +:+ "}"
  | Divider => "{" +:+ field "type" (quoted "divider") +:+ "}"
  end.

Fixpoint joinComma (items : list string) : string :=
  match items with
  | [] => ""
  | [item] => item
  | item :: items' => item +:+ "," +:+ joinComma items'
  end.

Definition stringify (payload : Payload) : string :=
  "{" +:+ field "text" (quoted (payload_text payload)) +:+ ","
    +:+ field "blocks" ("[" +:+ joinComma (map blockJson (blocks payload)) +:+ "]")
    +:+ "}".

Definition inputs : Inputs :=
  {| in_tag := "v1.1.0"; in_fromTag := ""; in_toTag := "";
     in_title := "Release";
     in_slackBotToken := ""; in_slackChannelId := "";
     in_excludeTypes := "";
     in_includeInvalidCommits := false; in_reverseOrder := false |}.

End Sample.

(** ** Further notions *)

(** The resolver as the specification words it ([tag] XOR ([fromTag] and
    [toTag])): the single-tag form is a tag, the pair form is [fromTag]
    together with [toTag]; both forms, or none, is ambiguous, and
    otherwise the form that is given selects the mode.  It is compared
    with [resolveTags], which is the code. *)
Definition resolveTags_as_specified (lastTags : list TagRef)
    (tag fromTag toTag : string) : Failure + TagRef * TagRef :=
  let single := JS.truthy tag in
  let pair := JS.truthy fromTag && JS.truthy toTag in
  if single && pair then inl (AmbiguousRangeInput true)
  else if single then
    match lastTags with
    | [] => inl NoLatestTag
    | [_] => inl NoPreviousTag
    | latestTag :: previousTag :: _ =>
        if String.eqb (name latestTag) tag then inr (latestTag, previousTag)
        else inl (TagMismatch tag)
    end
  else if pair then inr (mkTagRef fromTag None, mkTagRef toTag None)
  else inl (AmbiguousRangeInput false).

(** The number of occurrences of the character [c] in [s]. *)
Fixpoint occurrences (c : ascii) (s : string) : nat :=
  match s with
  | EmptyString => 0
  | String c' s' => (if Ascii.eqb c' c then 1 else 0) + occurrences c s'
  end.

(** The commit has a type of a rule of the table that is not skipped. *)
Definition isListed (excludeTypes : list string) (commit : ParsedCommit)
  : bool :=
  existsb (fun type => negb (excluded excludeTypes type)
                       && JS.includes (Rule.types type) (pc_type commit))
          types.

Definition isDivider (b : Block) : bool :=
  match b with Divider => true | _ => false end.

(** The parser accepts the message of the commit. *)
Definition parses (parser : string -> option CAst) (commit : Commit) : bool :=
  match parser (message commit) with Some _ => true | None => false end.

(** The number of dividers pushed for [shown] rendered types. *)
Definition dividerCount (breakingChanges : list BreakingChange)
    (shown : nat) : nat :=
  if noBreaking breakingChanges then shown - 1 else shown.

(** What is left of [main] once the range is known (lines 94-280). *)
Definition afterRange (api : string -> nat -> CompareResponse)
    (parser : string -> option CAst)
    (postMessage : PostRequest -> PostResponse)
    (JSON_stringify : Payload -> string)
    (fuel : nat) (inp : Inputs) (range : string) : option Outcome :=
  match fetchCommits api fuel range with
  | None => None
  | Some ([], _) => Some (Failed NoCommitsInRange)
  | Some (commits, _) =>
      Some (deliverOrEmit postMessage JSON_stringify (in_slackBotToken inp)
              (commaList (in_slackChannelId inp))
              (changelog parser inp commits))
  end.

(** ** The primitives on examples *)

Example split_empty : JS.split "," "" = [""].
Proof. reflexivity. Qed.

Example split_two : JS.split "," "C01, C02" = ["C01"; " C02"].
Proof. reflexivity. Qed.

Example trim_both : JS.trim "  fix me " = "fix me".
Proof. reflexivity. Qed.

Example lower_mixed : JS.toLowerCase "FeAt" = "feat".
Proof. reflexivity. Qed.

(** ** The parsing loop *)

Lemma noteStep_fold commit cAst notes acc :
  fold_left (noteStep commit cAst) notes acc
  = acc ++ map (breakingChangeOf commit cAst) (List.filter isBreaking notes).
Proof.
  revert acc. induction notes as [|note notes IH]; intros acc; simpl.
  - by rewrite app_nil_r.
  - rewrite IH. unfold noteStep, isBreaking.
    destruct (String.eqb (title note) "BREAKING CHANGE"); simpl.
    + by rewrite <- app_assoc.
    + done.
Qed.

Lemma parseStep_view parser incl st commit :
  parseStep parser incl st commit
  = (fst st ++ parsedFrom parser incl commit,
     snd st ++ breakingFrom parser commit).
Proof.
  destruct st as [ps bs]. unfold parseStep, parsedFrom, breakingFrom. simpl.
  destruct (parser (message commit)) as [cAst|].
  - by rewrite noteStep_fold.
  - destruct incl; by rewrite !app_nil_r.
Qed.

Lemma parseLoop_view parser incl commits st :
  fold_left (parseStep parser incl) commits st
  = (fst st ++ flat_map (parsedFrom parser incl) commits,
     snd st ++ flat_map (breakingFrom parser) commits).
Proof.
  revert st. induction commits as [|c commits IH]; intros st; simpl.
  - rewrite !app_nil_r. by destruct st.
  - rewrite IH, parseStep_view. simpl. by rewrite <- !app_assoc.
Qed.

Lemma parseCommits_view parser incl commits :
  parseCommits parser incl commits
  = (flat_map (parsedFrom parser incl) commits,
     flat_map (breakingFrom parser) commits).
Proof. unfold parseCommits. by rewrite parseLoop_view. Qed.

(** ** The block loop *)

Lemma breakingStep_view breakingChanges idx slackBlocks :
  breakingStep breakingChanges (idx, slackBlocks)
  = (if noBreaking breakingChanges then idx else idx + 1,
     slackBlocks ++ breakingBlocks breakingChanges).
Proof.
  unfold breakingStep, breakingBlocks.
  destruct breakingChanges; simpl.
  - by rewrite app_nil_r.
  - by rewrite <- app_assoc.
Qed.

Lemma typeStep_view excludeTypes commitsParsed idx slackBlocks type :
  typeStep excludeTypes commitsParsed (idx, slackBlocks) type
  = if isRendered excludeTypes commitsParsed type
    then (idx + 1,
          slackBlocks
            ++ (if idx =? 0 then groupBlocks commitsParsed type
                else Divider :: groupBlocks commitsParsed type))
    else (idx, slackBlocks).
Proof.
  unfold typeStep, isRendered, groupBlocks, commitLines.
  destruct (excluded excludeTypes type); [done|].
  destruct (length (matching type commitsParsed) <? 1); [done|].
  destruct idx as [|idx]; simpl; by rewrite <- !app_assoc.
Qed.

Lemma typeLoop_view excludeTypes commitsParsed rules idx slackBlocks :
  fold_left (typeStep excludeTypes commitsParsed) rules (idx, slackBlocks)
  = (idx + length (List.filter (isRendered excludeTypes commitsParsed) rules),
     slackBlocks
       ++ joinGroups (idx =? 0)
            (map (groupBlocks commitsParsed)
                 (List.filter (isRendered excludeTypes commitsParsed) rules))).
Proof.
  revert idx slackBlocks.
  induction rules as [|type rules IH]; intros idx slackBlocks.
  - simpl. by rewrite Nat.add_0_r, app_nil_r.
  - cbn [fold_left List.filter]. rewrite typeStep_view.
    destruct (isRendered excludeTypes commitsParsed type); [|apply IH].
    rewrite IH. cbn [length map joinGroups].
    replace (idx + 1 =? 0) with false by (symmetry; apply Nat.eqb_neq; lia).
    rewrite <- app_assoc. f_equal. lia.
Qed.

Lemma buildBlocks_view title breakingChanges commitsParsed excludeTypes :
  buildBlocks title breakingChanges commitsParsed excludeTypes
  = titleBlocks title ++ breakingBlocks breakingChanges
      ++ joinGroups (noBreaking breakingChanges)
           (map (groupBlocks commitsParsed)
                (renderedTypes excludeTypes commitsParsed)).
Proof.
  unfold buildBlocks. rewrite breakingStep_view.
  rewrite typeLoop_view. cbn [snd]. rewrite <- app_assoc.
  unfold renderedTypes. by destruct breakingChanges.
Qed.

(** ** The sink (lines 26-28 and 257-280) *)

Lemma split_length sep s : 0 < length (JS.split sep s).
Proof.
  induction s as [|c s IH]; simpl; [lia|].
  destruct (Ascii.eqb c sep); simpl; [lia|].
  destruct (JS.split sep s); simpl; lia.
Qed.

Lemma commaList_length input : 0 < length (commaList input).
Proof. unfold commaList. rewrite length_map. apply split_length. Qed.

(** The second half of the guard of line 257 never fails. *)
Lemma deliverOrEmit_guard postMessage JSON_stringify token input payload :
  deliverOrEmit postMessage JSON_stringify token (commaList input) payload
  = if 0 <? String.length token
    then Posted (map (fun channelId =>
                        (mkPostRequest token channelId payload,
                         postMessage (mkPostRequest token channelId payload)))
                     (commaList input))
    else Output "payload" (JSON_stringify payload).
Proof.
  unfold deliverOrEmit.
  pose proof (commaList_length input) as H.
  apply Nat.ltb_lt in H. rewrite H. by rewrite andb_true_r.
Qed.

(** C1 (the code departs from the claim): with a bot token configured and
    the [slackChannelId] input empty, [slackChannelIds] is the one-element
    list holding the empty string, so the guard
    [slackChannelIds.length > 0] holds and the run posts the payload to the
    channel with the empty id; the [payload] output is not set. *)
Theorem C1_empty_channel_input_posts :
  forall postMessage JSON_stringify payload,
    commaList "" = [""]
    /\ deliverOrEmit postMessage JSON_stringify "xoxb-1" (commaList "") payload
       = Posted [(mkPostRequest "xoxb-1" "" payload,
                  postMessage (mkPostRequest "xoxb-1" "" payload))].
Proof. intros. split; reflexivity. Qed.

(** The same on a whole run of the sample repository. *)
Example main_token_without_channel :
  main Sample.tags (Sample.serve [Sample.fixA]) Sample.parser Sample.postOk
       Sample.stringify 1
       {| in_tag := "v1.1.0"; in_fromTag := ""; in_toTag := "";
          in_title := ""; in_slackBotToken := "xoxb-1";
          in_slackChannelId := ""; in_excludeTypes := "";
          in_includeInvalidCommits := false; in_reverseOrder := false |}
  = Some (Posted
            [(mkPostRequest "xoxb-1" ""
                (mkPayload "" [Section ":bug: *Bug Fixes*";
                               Section "a by octocat abc1234"]),
              mkPostResponse 200 "ok")]).
Proof. vm_compute. reflexivity. Qed.

(** ** The tag range (lines 38-90) *)

Lemma truthy_true s : s <> "" -> JS.truthy s = true.
Proof. by destruct s. Qed.

(** C9, as the code has it: the resolver fails with [AmbiguousRangeInput]
    when there is no tag and [fromTag] or [toTag] is missing, and when the
    tag comes with [fromTag] or [toTag], one of them being enough; with a
    tag alone it fails with [NoLatestTag] on no tag, with [NoPreviousTag]
    on one tag, with [TagMismatch] when the first tag has another name,
    and otherwise yields the first tag as latest and the second as
    previous; with [fromTag] and [toTag] and no tag it yields them
    whatever the tags of the repository are.  Apart from a tag that comes
    with exactly one of [fromTag] and [toTag], this is the resolver as the
    specification words it. *)
Theorem C9_resolveTags (tag fromTag toTag : string) :
  (tag = "" -> ~ (fromTag <> "" /\ toTag <> "") ->
     forall lastTags,
       resolveTags lastTags tag fromTag toTag = inl (AmbiguousRangeInput false))
  /\ (tag <> "" -> fromTag <> "" \/ toTag <> "" ->
        forall lastTags,
          resolveTags lastTags tag fromTag toTag = inl (AmbiguousRangeInput true))
  /\ (tag <> "" -> fromTag = "" -> toTag = "" ->
        resolveTags [] tag fromTag toTag = inl NoLatestTag
        /\ (forall t, resolveTags [t] tag fromTag toTag = inl NoPreviousTag)
        /\ (forall t1 t2 more, name t1 <> tag ->
              resolveTags (t1 :: t2 :: more) tag fromTag toTag
              = inl (TagMismatch tag))
        /\ (forall t1 t2 more, name t1 = tag ->
              resolveTags (t1 :: t2 :: more) tag fromTag toTag = inr (t1, t2)))
  /\ (tag = "" -> fromTag <> "" -> toTag <> "" ->
        forall lastTags,
          resolveTags lastTags tag fromTag toTag
          = inr (mkTagRef fromTag None, mkTagRef toTag None))
  /\ (~ (tag <> ""
         /\ ((fromTag <> "" /\ toTag = "") \/ (fromTag = "" /\ toTag <> ""))) ->
        forall lastTags,
          resolveTags lastTags tag fromTag toTag
          = resolveTags_as_specified lastTags tag fromTag toTag).
Proof.
  unfold resolveTags. split; [|split; [|split; [|split]]].
  - intros -> Hpair lastTags. simpl.
    destruct fromTag, toTag; simpl; try done.
    exfalso. apply Hpair. done.
  - intros Ht Hany lastTags. rewrite (truthy_true tag) by done.
    destruct Hany as [Hf|Hto].
    + by rewrite (truthy_true fromTag).
    + rewrite (truthy_true toTag) by done. by rewrite orb_true_r.
  - intros Ht -> ->. rewrite (truthy_true tag) by done. simpl.
    split; [done|]. split; [done|]. split.
    + intros t1 t2 more Hne. apply String.eqb_neq in Hne. by rewrite Hne.
    + intros t1 t2 more Heq. subst. by rewrite String.eqb_refl.
  - intros -> Hf Ht lastTags. simpl.
    by rewrite (truthy_true fromTag), (truthy_true toTag).
  - intros Hout lastTags. unfold resolveTags_as_specified.
    destruct tag as [|a tag]; [done|].
    destruct fromTag as [|b fromTag], toTag as [|c toTag]; cbn [JS.truthy andb orb].
    + destruct lastTags as [|l [|p more]]; cbn; [done|done|].
      by destruct (String.eqb (name l) (String a tag)).
    + exfalso. apply Hout. split; [done|]. by right.
    + exfalso. apply Hout. split; [done|]. by left.
    + done.
Qed.

Lemma C9_resolveTags_witness :
  resolveTags Sample.tags "" "v2" "" = inl (AmbiguousRangeInput false)
  /\ resolveTags Sample.tags "v1.1.0" "v2" "v1" = inl (AmbiguousRangeInput true)
  /\ resolveTags Sample.tags "v1.1.0" "v1.0.0" "" = inl (AmbiguousRangeInput true)
  /\ resolveTags [] "v1.1.0" "" "" = inl NoLatestTag
  /\ resolveTags [mkTagRef "v1.1.0" None] "v1.1.0" "" "" = inl NoPreviousTag
  /\ resolveTags Sample.tags "v1.0.9" "" "" = inl (TagMismatch "v1.0.9")
  /\ resolveTags Sample.tags "v1.1.0" "" ""
     = inr (mkTagRef "v1.1.0" (Some "abc1234f0e9d8c7b6a5f4e3d2c1b0a9f8e7d6c5b"),
            mkTagRef "v1.0.0" (Some "5566778899aabbccddeeff00112233445566aabb"))
  /\ resolveTags Sample.tags "" "v2" "v1"
     = inr (mkTagRef "v2" None, mkTagRef "v1" None)
  /\ resolveTags Sample.tags "v1.1.0" "" ""
     = resolveTags_as_specified Sample.tags "v1.1.0" "" "".
Proof.
  split; [|split; [|split; [|split; [|split; [|split; [|split; [|split]]]]]]].
  - apply (proj1 (C9_resolveTags "" "v2" "")); [reflexivity|].
    intros [_ H]. apply H. reflexivity.
  - apply (proj1 (proj2 (C9_resolveTags "v1.1.0" "v2" "v1")));
      [discriminate|left; discriminate].
  - apply (proj1 (proj2 (C9_resolveTags "v1.1.0" "v1.0.0" "")));
      [discriminate|left; discriminate].
  - apply (proj1 (proj2 (proj2 (C9_resolveTags "v1.1.0" "" ""))));
      [discriminate|reflexivity|reflexivity].
  - apply (proj1 (proj2 (proj2 (C9_resolveTags "v1.1.0" "" ""))));
      [discriminate|reflexivity|reflexivity].
  - apply (proj1 (proj2 (proj2 (C9_resolveTags "v1.0.9" "" ""))));
      [discriminate|reflexivity|reflexivity|discriminate].
  - apply (proj1 (proj2 (proj2 (C9_resolveTags "v1.1.0" "" ""))));
      [discriminate|reflexivity|reflexivity|reflexivity].
  - apply (proj1 (proj2 (proj2 (proj2 (C9_resolveTags "" "v2" "v1")))));
      [reflexivity|discriminate|discriminate].
  - apply (proj2 (proj2 (proj2 (proj2 (C9_resolveTags "v1.1.0" "" ""))))).
    intros [_ [[H _]|[_ H]]]; apply H; reflexivity.
Defined.

(** C9 as stated fails for a tag that comes with [fromTag] alone: the
    single-tag form is given and the pair is not, so the resolver of the
    specification takes the two tags of the repository; the code fails
    with the message of both forms. *)
Lemma C9_counterexample :
  resolveTags_as_specified Sample.tags "v1.1.0" "v1.0.0" ""
  = inr (mkTagRef "v1.1.0" (Some "abc1234f0e9d8c7b6a5f4e3d2c1b0a9f8e7d6c5b"),
         mkTagRef "v1.0.0" (Some "5566778899aabbccddeeff00112233445566aabb"))
  /\ resolveTags Sample.tags "v1.1.0" "v1.0.0" ""
     = inl (AmbiguousRangeInput true)
  /\ resolveTags Sample.tags "v1.1.0" "v1.0.0" ""
     <> resolveTags_as_specified Sample.tags "v1.1.0" "v1.0.0" "".
Proof.
  split; [reflexivity|]. split; [reflexivity|]. discriminate.
Qed.

(** ** The fetch loop (lines 94-114) *)

Lemma pagesOf_le k T : pagesOf T <= k <-> T <= k * 100.
Proof.
  unfold pagesOf.
  pose proof (Nat.div_mod (T + 99) 100 ltac:(lia)).
  pose proof (Nat.mod_upper_bound (T + 99) 100 ltac:(lia)).
  lia.
Qed.

(** More fuel does not change the result of a loop that ended. *)
Lemma fetchLoop_fuel api range fuel extra :
  forall curPage acc reqs r,
    fetchLoop api fuel range curPage acc reqs = Some r ->
    fetchLoop api (fuel + extra) range curPage acc reqs = Some r.
Proof.
  induction fuel as [|fuel IH]; intros curPage acc reqs r; simpl; [done|].
  destruct (_ <? _); [apply IH|done].
Qed.

Lemma pagesUpTo_length endpoint T :
  wellPaged endpoint T ->
  forall k, k <= 1 `max` pagesOf T ->
    length (pagesUpTo endpoint k) = T `min` (k * 100).
Proof.
  intros HP k. unfold pagesUpTo. induction k as [|k IH]; intros Hk.
  - simpl. lia.
  - rewrite seq_S, map_app, concat_app, length_app, IH by lia. simpl.
    destruct (HP (S k) ltac:(lia)) as [_ Hlen].
    rewrite app_nil_r, Hlen. lia.
Qed.

Lemma fetchLoop_wellPaged api range T :
  wellPaged (api range) T ->
  forall more curPage acc reqs fuel,
    curPage + S more = 1 `max` pagesOf T ->
    S more <= fuel ->
    fetchLoop api fuel range curPage acc reqs
    = Some (acc ++ concat (map (fun page => data_commits (api range page))
                               (seq (curPage + 1) (S more))),
            reqs ++ seq (curPage + 1) (S more)).
Proof.
  intros HP. induction more as [|more IH]; intros k acc reqs fuel Hn Hfuel;
    (destruct fuel as [|fuel]; [lia|]); cbn [fetchLoop];
    destruct (HP (k + 1) ltac:(lia)) as [Htotal Hlen];
    rewrite Htotal, Hlen; replace (k + 1 - 1) with k by lia.
  - assert (T <= (k + 1) * 100) by (apply pagesOf_le; lia).
    replace (k * 100 + 100 `min` (T - k * 100) <? T) with false
      by (symmetry; apply Nat.ltb_ge; lia).
    simpl. by rewrite app_nil_r.
  - assert (~ T <= (k + 1) * 100) by (rewrite <- pagesOf_le; lia).
    replace (k * 100 + 100 `min` (T - k * 100) <? T) with true
      by (symmetry; apply Nat.ltb_lt; lia).
    rewrite (IH (k + 1)) by lia.
    replace (k + 1 + 1) with (S (k + 1)) by lia.
    cbn [seq map concat]. by rewrite <- !app_assoc.
Qed.

Lemma serve_wellPaged history range :
  wellPaged (Sample.serve history range) (length history).
Proof.
  intros page _. unfold Sample.serve.
  cbn [data_total_commits data_commits]. split; [done|].
  rewrite length_take, length_drop. lia.
Qed.

(** C2, as the loop has it: against an endpoint that declares [T] commits
    and serves them in pages of 100, the fetcher requests the pages
    [1, 2, ..., n] in this order, where [n] is [ceil(T / 100)] for [T >= 1]
    and [1] for [T = 0] (the [do ... while] loop asks for page 1 before it
    knows [T]); it returns the commits of these pages in request order, and
    they are [T]. *)
Theorem C2_fetch_pages api range T :
  wellPaged (api range) T ->
  forall fuel, 1 `max` pagesOf T <= fuel ->
    fetchCommits api fuel range
    = Some (pagesUpTo (api range) (1 `max` pagesOf T), seq 1 (1 `max` pagesOf T))
    /\ length (pagesUpTo (api range) (1 `max` pagesOf T)) = T
    /\ (1 <= T -> 1 `max` pagesOf T = pagesOf T).
Proof.
  intros HP fuel Hfuel.
  assert (Hn : exists more, 1 `max` pagesOf T = S more)
    by (exists (1 `max` pagesOf T - 1); lia).
  destruct Hn as [more Hn]. split; [|split].
  - unfold fetchCommits.
    rewrite (fetchLoop_wellPaged api range T HP more 0 [] [] fuel) by lia.
    by rewrite Hn.
  - rewrite (pagesUpTo_length _ T HP) by lia.
    assert (T <= (1 `max` pagesOf T) * 100) by (apply pagesOf_le; lia).
    lia.
  - intros HT. assert (~ pagesOf T <= 0) by (rewrite pagesOf_le; lia). lia.
Qed.

Lemma C2_fetch_pages_witness :
  fetchCommits (Sample.serve (replicate 250 Sample.wip)) 5 "v1.0.0...v1.1.0"
  = Some (replicate 250 Sample.wip, [1; 2; 3])
  /\ length (replicate 250 Sample.wip) = 250.
Proof.
  destruct (C2_fetch_pages (Sample.serve (replicate 250 Sample.wip))
              "v1.0.0...v1.1.0" 250
              (serve_wellPaged (replicate 250 Sample.wip) "v1.0.0...v1.1.0")
              5 ltac:(vm_compute; lia)) as [Hfetch _].
  split; [exact Hfetch | reflexivity].
Defined.

(** C2 as stated fails for [T = 0]: the endpoint declares no commit, the
    loop still requests page 1, and [ceil(0 / 100)] is [0]. *)
Lemma C2_counterexample :
  wellPaged (Sample.serve [] "v1.0.0...v1.1.0") 0
  /\ fetchCommits (Sample.serve []) 1 "v1.0.0...v1.1.0" = Some ([], [1])
  /\ fetchCommits (Sample.serve []) 9 "v1.0.0...v1.1.0" = Some ([], [1])
  /\ length [1] <> pagesOf 0.
Proof.
  split; [apply (serve_wellPaged [])|].
  split; [reflexivity|]. split; [reflexivity|]. vm_compute. lia.
Qed.

(** ** Parsing and breaking changes (lines 122-163, 192-212) *)

Lemma changelog_view parser inp commits :
  changelog parser inp commits
  = mkPayload (in_title inp)
      (buildBlocks (in_title inp)
         (flat_map (breakingFrom parser) commits)
         (if in_reverseOrder inp
          then rev (flat_map (parsedFrom parser (in_includeInvalidCommits inp))
                             commits)
          else flat_map (parsedFrom parser (in_includeInvalidCommits inp))
                        commits)
         (commaList (in_excludeTypes inp))).
Proof. unfold changelog. by rewrite parseCommits_view. Qed.

(** C3: a commit whose message parses adds one record to
    [breakingChanges] for each of its notes titled [BREAKING CHANGE], with
    the commit's sha, url, author and author url, the parsed subject and
    the note's text, whatever the commit's type and whatever
    [excludeTypes] holds; and when [breakingChanges] is not empty, the
    blocks are the title block, the announcing section, one section per
    record, and only then the sections of the types. *)
Theorem C3_breaking_changes parser :
  (forall incl commit cAst st,
      parser (message commit) = Some cAst ->
      snd (parseStep parser incl st commit)
      = snd st ++ map (fun note =>
                         {| bc_sha := sha commit;
                            bc_url := html_url commit;
                            bc_subject := ast_subject cAst;
                            bc_author := author_login commit;
                            bc_authorUrl := author_html_url commit;
                            bc_text := text note |})
                      (List.filter
                         (fun note => String.eqb (title note) "BREAKING CHANGE")
                         (ast_notes cAst)))
  /\ (forall inp commits,
        let commitsParsed :=
          fst (parseCommits parser (in_includeInvalidCommits inp) commits) in
        let breakingChanges :=
          snd (parseCommits parser (in_includeInvalidCommits inp) commits) in
        let listed :=
          if in_reverseOrder inp then rev commitsParsed else commitsParsed in
        breakingChanges <> [] ->
        blocks (changelog parser inp commits)
        = titleBlocks (in_title inp)
            ++ (Section ":boom: *BREAKING CHANGES*"
                  :: map (fun breakChange => Section (breakingText breakChange))
                         breakingChanges)
            ++ joinGroups false
                 (map (groupBlocks listed)
                      (renderedTypes (commaList (in_excludeTypes inp)) listed))).
Proof.
  split.
  - intros incl commit cAst st Hparse.
    rewrite parseStep_view. unfold breakingFrom. by rewrite Hparse.
  - intros inp commits. rewrite changelog_view, parseCommits_view.
    cbn [fst snd blocks]. intros Hne. rewrite buildBlocks_view.
    destruct (flat_map (breakingFrom parser) commits); [done|].
    reflexivity.
Qed.

Lemma C3_breaking_changes_witness :
  snd (parseStep Sample.parser false ([], []) Sample.choreBreaking)
  = [{| bc_sha := "0a1b2c3d4e5f60718293a4b5c6d7e8f9012345ab";
        bc_url := "https://github.com/acme/widget/commit/0a1b2c3";
        bc_subject := "drop v1";
        bc_author := None;
        bc_authorUrl := None;
        bc_text := "removes v1 API" |}]
  /\ blocks (changelog Sample.parser
               {| in_tag := "v1.1.0"; in_fromTag := ""; in_toTag := "";
                  in_title := "Release";
                  in_slackBotToken := ""; in_slackChannelId := "";
                  in_excludeTypes := "chore";
                  in_includeInvalidCommits := false;
                  in_reverseOrder := false |}
               [Sample.fixA; Sample.choreBreaking])
     = [Header "Release";
        Section ":boom: *BREAKING CHANGES*";
        Section "drop v1";
        Divider;
        Section ":bug: *Bug Fixes*";
        Section "a by octocat abc1234"].
Proof.
  split.
  - apply (proj1 (C3_breaking_changes Sample.parser) false Sample.choreBreaking
             (mkCAst "chore" None "drop v1"
                [mkNote "BREAKING CHANGE" "removes v1 API"]) ([], [])).
    reflexivity.
  - apply (proj2 (C3_breaking_changes Sample.parser)
             {| in_tag := "v1.1.0"; in_fromTag := ""; in_toTag := "";
                in_title := "Release";
                in_slackBotToken := ""; in_slackChannelId := "";
                in_excludeTypes := "chore";
                in_includeInvalidCommits := false;
                in_reverseOrder := false |}
             [Sample.fixA; Sample.choreBreaking]).
    vm_compute. discriminate.
Defined.

(** ** The whole run *)

Lemma main_after_fetch lastTags api parser post str fuel inp
    latestTag previousTag commits reqs :
  resolveTags lastTags (in_tag inp) (in_fromTag inp) (in_toTag inp)
  = inr (latestTag, previousTag) ->
  fetchCommits api fuel (basehead previousTag latestTag)
  = Some (commits, reqs) ->
  main lastTags api parser post str fuel inp
  = match commits with
    | [] => Some (Failed NoCommitsInRange)
    | _ :: _ =>
        Some (deliverOrEmit post str (in_slackBotToken inp)
                (commaList (in_slackChannelId inp))
                (changelog parser inp commits))
    end.
Proof.
  intros Hres Hfetch. unfold main. rewrite Hres, Hfetch. by destruct commits.
Qed.

Lemma resolveTags_failure lastTags tag fromTag toTag :
  resolveTags lastTags tag fromTag toTag <> inl NoCommitsInRange.
Proof.
  unfold resolveTags.
  destruct (JS.truthy tag && _); [done|].
  destruct (JS.truthy tag).
  - destruct (lastTags !! 0); [|done]. destruct (lastTags !! 1); [|done].
    by destruct (negb _).
  - by destruct (JS.truthy fromTag && _).
Qed.

Lemma deliverOrEmit_not_failed post str token ids payload f :
  deliverOrEmit post str token ids payload <> Failed f.
Proof. unfold deliverOrEmit. by destruct (_ && _). Qed.

(** ** Messages that do not parse (lines 148-162) *)

(** C4: for a commit whose message the parser rejects, with
    [includeInvalidCommits] the loop adds exactly the fallback commit, of
    type [other], with the whole message as subject, without scope and
    without notes, and adds nothing to [breakingChanges]; without
    [includeInvalidCommits] the loop's state is unchanged, so that the run
    is the one of the commit list without this commit; and a run that has
    fetched the commit does not fail: it ends in the sink. *)
Theorem C4_invalid_commit parser commit :
  parser (message commit) = None ->
  (forall commitsParsed breakingChanges,
      parseStep parser true (commitsParsed, breakingChanges) commit
      = (commitsParsed
           ++ [ {| pc_type := "other";
                   pc_scope := None;
                   pc_subject := message commit;
                   pc_notes := None;
                   pc_sha := sha commit;
                   pc_url := html_url commit;
                   pc_author := author_login commit;
                   pc_authorUrl := author_html_url commit |} ],
         breakingChanges))
  /\ (forall st, parseStep parser false st commit = st)
  /\ (forall before after,
        parseCommits parser false (before ++ commit :: after)
        = parseCommits parser false (before ++ after))
  /\ (forall inp before after,
        in_includeInvalidCommits inp = false ->
        changelog parser inp (before ++ commit :: after)
        = changelog parser inp (before ++ after))
  /\ (forall lastTags api post str fuel inp latestTag previousTag commits reqs,
        resolveTags lastTags (in_tag inp) (in_fromTag inp) (in_toTag inp)
        = inr (latestTag, previousTag) ->
        fetchCommits api fuel (basehead previousTag latestTag)
        = Some (commits, reqs) ->
        In commit commits ->
        main lastTags api parser post str fuel inp
        = Some (deliverOrEmit post str (in_slackBotToken inp)
                  (commaList (in_slackChannelId inp))
                  (changelog parser inp commits))).
Proof.
  intros Hbad.
  assert (Hstep : forall st, parseStep parser false st commit = st).
  { intros [ps bs]. unfold parseStep. by rewrite Hbad. }
  assert (Hloop : forall before after,
             parseCommits parser false (before ++ commit :: after)
             = parseCommits parser false (before ++ after)).
  { intros before after. unfold parseCommits.
    rewrite !fold_left_app. cbn [fold_left]. by rewrite Hstep. }
  split; [|split; [|split; [|split]]].
  - intros ps bs. unfold parseStep. by rewrite Hbad.
  - exact Hstep.
  - exact Hloop.
  - intros inp before after Hincl. unfold changelog. by rewrite Hincl, Hloop.
  - intros lastTags api post str fuel inp latestTag previousTag commits reqs
      Hres Hfetch Hin.
    rewrite (main_after_fetch _ _ _ _ _ _ _ _ _ _ _ Hres Hfetch).
    by destruct commits.
Qed.

Lemma C4_invalid_commit_witness :
  parseStep Sample.parser true ([], []) Sample.wip
  = ([ {| pc_type := "other";
          pc_scope := None;
          pc_subject := "updated stuff";
          pc_notes := None;
          pc_sha := "77aa88bb99cc00dd11ee22ff33445566778899aa";
          pc_url := "https://github.com/acme/widget/commit/77aa88b";
          pc_author := Some "octocat";
          pc_authorUrl := Some "https://github.com/octocat" |} ], [])
  /\ parseCommits Sample.parser false [Sample.fixA; Sample.wip; Sample.featB]
     = parseCommits Sample.parser false [Sample.fixA; Sample.featB]
  /\ main Sample.tags (Sample.serve [Sample.wip; Sample.fixA]) Sample.parser
          Sample.postOk Sample.stringify 1 Sample.inputs
     = Some (Output "payload"
               (Sample.stringify
                  (mkPayload "Release"
                     [Header "Release";
                      Section ":bug: *Bug Fixes*";
                      Section "a by octocat abc1234"]))).
Proof.
  pose proof (C4_invalid_commit Sample.parser Sample.wip eq_refl)
    as (Hon & _ & Hoff & _ & Hrun).
  split; [exact (Hon [] [])|].
  split; [exact (Hoff [Sample.fixA] [Sample.featB])|].
  exact (Hrun Sample.tags (Sample.serve [Sample.wip; Sample.fixA])
           Sample.postOk Sample.stringify 1 Sample.inputs
           (mkTagRef "v1.1.0" (Some "abc1234f0e9d8c7b6a5f4e3d2c1b0a9f8e7d6c5b"))
           (mkTagRef "v1.0.0" (Some "5566778899aabbccddeeff00112233445566aabb"))
           [Sample.wip; Sample.fixA] [1]
           eq_refl eq_refl (or_introl eq_refl)).
Defined.

(** ** No commit in the range (lines 116-118 and 165-167) *)

(** C7: the run fails with [NoCommitsInRange] exactly when the tags were
    resolved and the fetch loop returned no commit; when commits were
    fetched and the parser rejects all of them, without
    [includeInvalidCommits], the run does not fail: it reaches the sink
    with a payload that holds the title block only. *)
Theorem C7_no_commits lastTags api parser post str fuel inp :
  (main lastTags api parser post str fuel inp = Some (Failed NoCommitsInRange)
   <-> exists latestTag previousTag reqs,
         resolveTags lastTags (in_tag inp) (in_fromTag inp) (in_toTag inp)
         = inr (latestTag, previousTag)
         /\ fetchCommits api fuel (basehead previousTag latestTag)
            = Some ([], reqs))
  /\ (forall latestTag previousTag commits reqs,
        resolveTags lastTags (in_tag inp) (in_fromTag inp) (in_toTag inp)
        = inr (latestTag, previousTag) ->
        fetchCommits api fuel (basehead previousTag latestTag)
        = Some (commits, reqs) ->
        commits <> [] ->
        in_includeInvalidCommits inp = false ->
        (forall commit, In commit commits -> parser (message commit) = None) ->
        main lastTags api parser post str fuel inp
        = Some (deliverOrEmit post str (in_slackBotToken inp)
                  (commaList (in_slackChannelId inp))
                  (mkPayload (in_title inp) (titleBlocks (in_title inp))))).
Proof.
  split; [split|].
  - unfold main.
    destruct (resolveTags _ _ _ _) as [f|[latestTag previousTag]] eqn:Hres.
    + intros [= ->]. by apply resolveTags_failure in Hres.
    + destruct (fetchCommits _ _ _) as [[commits reqs]|] eqn:Hfetch; [|done].
      destruct commits as [|c commits]; simpl.
      * intros _. by exists latestTag, previousTag, reqs.
      * intros [= H]. by apply deliverOrEmit_not_failed in H.
  - intros (latestTag & previousTag & reqs & Hres & Hfetch).
    by rewrite (main_after_fetch _ _ _ _ _ _ _ _ _ _ _ Hres Hfetch).
  - intros latestTag previousTag commits reqs Hres Hfetch Hne Hincl Hbad.
    rewrite (main_after_fetch _ _ _ _ _ _ _ _ _ _ _ Hres Hfetch).
    destruct commits as [|c commits]; [done|].
    do 2 f_equal. rewrite changelog_view, Hincl. f_equal.
    assert (Hp : flat_map (parsedFrom parser false) (c :: commits) = []).
    { clear -Hbad. induction (c :: commits) as [|x l IH]; [done|].
      simpl. unfold parsedFrom at 1. rewrite (Hbad x) by (by left).
      apply IH. intros y Hy. apply Hbad. by right. }
    assert (Hb : flat_map (breakingFrom parser) (c :: commits) = []).
    { clear -Hbad. induction (c :: commits) as [|x l IH]; [done|].
      simpl. unfold breakingFrom at 1. rewrite (Hbad x) by (by left).
      apply IH. intros y Hy. apply Hbad. by right. }
    rewrite Hp, Hb. rewrite buildBlocks_view.
    assert (Hnone : renderedTypes (commaList (in_excludeTypes inp)) [] = []).
    { unfold renderedTypes, isRendered, matching. simpl.
      repeat (rewrite andb_false_r; simpl). done. }
    destruct (in_reverseOrder inp); simpl; rewrite Hnone; simpl;
      by rewrite app_nil_r.
Qed.

Lemma C7_no_commits_witness :
  main Sample.tags (Sample.serve []) Sample.parser Sample.postOk
       Sample.stringify 1 Sample.inputs
  = Some (Failed NoCommitsInRange)
  /\ main Sample.tags (Sample.serve [Sample.wip; Sample.wip]) Sample.parser
          Sample.postOk Sample.stringify 1 Sample.inputs
     = Some (Output "payload"
               (Sample.stringify (mkPayload "Release" [Header "Release"]))).
Proof.
  split.
  - apply (proj1 (C7_no_commits Sample.tags (Sample.serve []) Sample.parser
                    Sample.postOk Sample.stringify 1 Sample.inputs)).
    exists (mkTagRef "v1.1.0" (Some "abc1234f0e9d8c7b6a5f4e3d2c1b0a9f8e7d6c5b")),
           (mkTagRef "v1.0.0" (Some "5566778899aabbccddeeff00112233445566aabb")),
           [1].
    split; reflexivity.
  - apply (proj2 (C7_no_commits Sample.tags
                    (Sample.serve [Sample.wip; Sample.wip]) Sample.parser
                    Sample.postOk Sample.stringify 1 Sample.inputs)
             (mkTagRef "v1.1.0" (Some "abc1234f0e9d8c7b6a5f4e3d2c1b0a9f8e7d6c5b"))
             (mkTagRef "v1.0.0" (Some "5566778899aabbccddeeff00112233445566aabb"))
             [Sample.wip; Sample.wip] [1]);
      [reflexivity | reflexivity | discriminate | reflexivity |].
    intros commit [<-|[<-|[]]]; reflexivity.
Defined.

(** ** Reversal (lines 169-171) *)

Lemma matching_rev type commitsParsed :
  matching type (rev commitsParsed) = rev (matching type commitsParsed).
Proof. unfold matching. apply List.filter_rev. Qed.

Lemma commitLines_rev type commitsParsed :
  commitLines type (rev commitsParsed) = rev (commitLines type commitsParsed).
Proof. unfold commitLines. by rewrite matching_rev, map_rev. Qed.

Lemma renderedTypes_rev excludeTypes commitsParsed :
  renderedTypes excludeTypes (rev commitsParsed)
  = renderedTypes excludeTypes commitsParsed.
Proof.
  unfold renderedTypes. apply List.filter_ext. intros type.
  unfold isRendered. by rewrite matching_rev, length_rev.
Qed.

(** C5: with and without [reverseOrder] the blocks start with the same
    title block and the same breaking-change sections, in the order in
    which the parsing loop collected them, and show the same types in the
    same order; under each type, the commit lines with [reverseOrder] are
    those without it in reverse order. *)
Theorem C5_reverse_order parser inp commits :
  let commitsParsed :=
    fst (parseCommits parser (in_includeInvalidCommits inp) commits) in
  let breakingChanges :=
    snd (parseCommits parser (in_includeInvalidCommits inp) commits) in
  let excludeTypes := commaList (in_excludeTypes inp) in
  blocks (changelog parser (withReverseOrder false inp) commits)
  = titleBlocks (in_title inp) ++ breakingBlocks breakingChanges
      ++ joinGroups (noBreaking breakingChanges)
           (map (fun type =>
                   Section (typeText type) :: commitLines type commitsParsed)
                (renderedTypes excludeTypes commitsParsed))
  /\ blocks (changelog parser (withReverseOrder true inp) commits)
     = titleBlocks (in_title inp) ++ breakingBlocks breakingChanges
         ++ joinGroups (noBreaking breakingChanges)
              (map (fun type =>
                      Section (typeText type)
                        :: rev (commitLines type commitsParsed))
                   (renderedTypes excludeTypes commitsParsed)).
Proof.
  intros commitsParsed breakingChanges excludeTypes.
  subst commitsParsed breakingChanges excludeTypes.
  rewrite !changelog_view, parseCommits_view.
  cbn [blocks withReverseOrder in_title in_excludeTypes in_reverseOrder
       in_includeInvalidCommits fst snd].
  rewrite !buildBlocks_view. split; [done|].
  rewrite renderedTypes_rev. do 3 f_equal.
  apply map_ext. intros type. unfold groupBlocks. by rewrite commitLines_rev.
Qed.

Example reverse_order_sample :
  let run flag :=
    blocks (changelog Sample.parser (withReverseOrder flag Sample.inputs)
              [Sample.fixA; Sample.choreBreaking;
               mkCommit "9f8e7d6c5b4a39281706f5e4d3c2b1a098765432" "fix: a"
                 "https://github.com/acme/widget/commit/9f8e7d6" None]) in
  run false
  = [Header "Release"; Section ":boom: *BREAKING CHANGES*"; Section "drop v1";
     Divider; Section ":bug: *Bug Fixes*";
     Section "a by octocat abc1234"; Section "a 9f8e7d6";
     Divider; Section ":wrench: *Chores*"; Section "drop v1 0a1b2c3"]
  /\ run true
     = [Header "Release"; Section ":boom: *BREAKING CHANGES*"; Section "drop v1";
        Divider; Section ":bug: *Bug Fixes*";
        Section "a 9f8e7d6"; Section "a by octocat abc1234";
        Divider; Section ":wrench: *Chores*"; Section "drop v1 0a1b2c3"].
Proof. split; vm_compute; reflexivity. Qed.

(** ** Exclusion (lines 214-221) *)

Lemma includes_In xs x : JS.includes xs x = true <-> In x xs.
Proof.
  unfold JS.includes. rewrite existsb_exists. split.
  - intros (y & Hy & Heq). apply String.eqb_eq in Heq. by subst.
  - intros Hx. exists x. split; [done|]. apply String.eqb_refl.
Qed.

Lemma intersection_nil xs ys :
  JS.intersection xs ys = [] <-> forall x, In x xs -> ~ In x ys.
Proof.
  unfold JS.intersection. induction xs as [|x xs IH]; simpl.
  - split; [by intros _ ? []|done].
  - destruct (JS.includes ys x) eqn:Hx; simpl.
    + split; [done|]. intros H. exfalso. apply (H x); [by left|].
      by apply includes_In.
    + rewrite IH. split.
      * intros H y [<-|Hy]; [|by apply H].
        intros Hin. apply includes_In in Hin. congruence.
      * intros H y Hy. apply H. by right.
Qed.

(** A rule is skipped exactly when one of its types is in [excludeTypes]. *)
Lemma excluded_iff excludeTypes type :
  excluded excludeTypes type = true
  <-> exists alias, In alias (Rule.types type) /\ In alias excludeTypes.
Proof.
  unfold excluded. rewrite Nat.ltb_lt. split.
  - intros Hlen.
    destruct (existsb (JS.includes excludeTypes) (Rule.types type)) eqn:He.
    + apply existsb_exists in He as (alias & Ha & Hin).
      exists alias. split; [done|]. by apply includes_In.
    + exfalso.
      assert (JS.intersection (Rule.types type) excludeTypes = []) as Hnil.
      { apply intersection_nil. intros x Hx Hin.
        assert (existsb (JS.includes excludeTypes) (Rule.types type) = true)
          by (apply existsb_exists; exists x; split;
              [done | by apply includes_In]).
        congruence. }
      rewrite Hnil in Hlen. simpl in Hlen. lia.
  - intros (alias & Ha & Hin).
    destruct (JS.intersection (Rule.types type) excludeTypes) eqn:Hi;
      [|simpl; lia].
    exfalso. by apply (proj1 (intersection_nil _ _) Hi alias).
Qed.

(** No type name is in two rules of the table. *)
Lemma types_disjoint rule1 rule2 alias :
  In rule1 types -> In rule2 types ->
  JS.includes (Rule.types rule1) alias = true ->
  JS.includes (Rule.types rule2) alias = true ->
  rule1 = rule2.
Proof.
  intros H1 H2 Ha1 Ha2. unfold types in H1, H2.
  apply includes_In in Ha1.
  repeat (destruct H1 as [<-|H1]); try done;
    simpl in Ha1; repeat (destruct Ha1 as [<-|Ha1]); try done;
    repeat (destruct H2 as [<-|H2]); try done;
    vm_compute in Ha2; discriminate.
Qed.

Lemma filter_sublist {A} (f : A -> bool) (l : list A) :
  sublist (List.filter f l) l.
Proof.
  induction l as [|x l IH]; simpl; [constructor|].
  destruct (f x); by constructor.
Qed.

(** C6: the type sections that are rendered follow a sublist of the table
    [types], in the table's order: the rules of which no type is in
    [excludeTypes] and that have a commit; and no commit listed under a
    rendered rule has a type of a skipped rule.  The breaking-change
    sections come from [breakingChanges] alone and do not depend on
    [excludeTypes]. *)
Theorem C6_exclusion title breakingChanges commitsParsed excludeTypes :
  let shown := renderedTypes excludeTypes commitsParsed in
  buildBlocks title breakingChanges commitsParsed excludeTypes
  = titleBlocks title ++ breakingBlocks breakingChanges
      ++ joinGroups (noBreaking breakingChanges)
           (map (fun type =>
                   Section (typeText type)
                     :: map (fun commit => Section (commitText commit))
                            (matching type commitsParsed))
                shown)
  /\ sublist shown types
  /\ (forall type,
        In type shown
        <-> In type types
            /\ (forall alias, In alias (Rule.types type) ->
                              ~ In alias excludeTypes)
            /\ matching type commitsParsed <> [])
  /\ (forall type commit rule alias,
        In type shown -> In commit (matching type commitsParsed) ->
        In rule types -> In alias (Rule.types rule) -> In alias excludeTypes ->
        ~ In (pc_type commit) (Rule.types rule)).
Proof.
  intros shown. subst shown. split; [apply buildBlocks_view|].
  split; [apply filter_sublist|]. split.
  - intros type. unfold renderedTypes. rewrite filter_In. unfold isRendered.
    rewrite andb_true_iff, !negb_true_iff, Nat.ltb_ge.
    assert (Hex : excluded excludeTypes type = false
                  <-> forall alias, In alias (Rule.types type) ->
                                    ~ In alias excludeTypes).
    { split.
      - intros Hf alias Ha Hin.
        assert (excluded excludeTypes type = true)
          by (apply excluded_iff; by exists alias).
        congruence.
      - intros Hnone. destruct (excluded excludeTypes type) eqn:He; [|done].
        apply excluded_iff in He as (alias & Ha & Hin).
        by destruct (Hnone alias Ha). }
    rewrite Hex.
    assert (Hlen : 1 <= length (matching type commitsParsed)
                   <-> matching type commitsParsed <> []).
    { destruct (matching type commitsParsed); simpl; split; try done; lia. }
    rewrite Hlen. tauto.
  - intros type commit rule alias Hshown Hcommit Hrule Halias Hex Htype.
    apply filter_In in Hshown as [Htable Hr]. unfold isRendered in Hr.
    apply andb_true_iff in Hr as [Hr _]. apply negb_true_iff in Hr.
    apply filter_In in Hcommit as [_ Hmatch].
    apply includes_In in Htype.
    assert (type = rule) as -> by (by apply (types_disjoint _ _ (pc_type commit))).
    assert (excluded excludeTypes rule = true)
      by (apply excluded_iff; by exists alias).
    congruence.
Qed.

Lemma C6_exclusion_witness :
  let parsed :=
    fst (parseCommits Sample.parser false
           [Sample.fixA; Sample.choreBreaking; Sample.featB]) in
  let breaking :=
    snd (parseCommits Sample.parser false
           [Sample.fixA; Sample.choreBreaking; Sample.featB]) in
  buildBlocks "Release" breaking parsed (commaList "chore")
  = [Header "Release"; Section ":boom: *BREAKING CHANGES*"; Section "drop v1";
     Divider; Section ":sparkles: *New Features*"; Section "b by hubot def5678";
     Divider; Section ":bug: *Bug Fixes*"; Section "a by octocat abc1234"]
  /\ sublist (renderedTypes (commaList "chore") parsed) types
  /\ ~ In "fix" (commaList "chore")
  /\ ~ In "fix" ["chore"].
Proof.
  intros parsed breaking.
  pose proof (C6_exclusion "Release" breaking parsed (commaList "chore"))
    as (Hblocks & Hsub & Hkept & Hnone).
  split; [exact Hblocks|]. split; [exact Hsub|]. split.
  - apply (proj1 (Hkept (Rule.mk ["fix"; "bugfix"] "Bug Fixes" ":bug:"
                           (Some "fixes")))).
    + vm_compute. right. left. reflexivity.
    + left. reflexivity.
  - apply (Hnone (Rule.mk ["fix"; "bugfix"] "Bug Fixes" ":bug:" (Some "fixes"))
             (parsedOf Sample.fixA (mkCAst "fix" None "a" []))
             (Rule.mk ["chore"] "Chores" ":wrench:" None) "chore").
    + vm_compute. right. left. reflexivity.
    + vm_compute. left. reflexivity.
    + vm_compute. do 8 right. left. reflexivity.
    + left. reflexivity.
    + left. reflexivity.
Defined.

(** The example of the claim on a run: with [excludeTypes] set to [chore],
    the chore commit has no line, and its breaking change is announced. *)
Example exclude_chore_sample :
  blocks (changelog Sample.parser
            {| in_tag := "v1.1.0"; in_fromTag := ""; in_toTag := "";
               in_title := ""; in_slackBotToken := ""; in_slackChannelId := "";
               in_excludeTypes := "chore";
               in_includeInvalidCommits := false; in_reverseOrder := false |}
            [Sample.choreBreaking])
  = [Section ":boom: *BREAKING CHANGES*"; Section "drop v1"].
Proof. vm_compute. reflexivity. Qed.

(** ** The scenario of two commits *)

(** C8: for the commits [fix: a] (sha starting with abc1234) and [feat: b]
    (sha starting with def5678), in this order, both with a known author,
    no exclusion, no reversal and the title [Release], the blocks are the
    header, the New Features heading, the line of b, one divider, the Bug
    Fixes heading and the line of a. *)
Theorem C8_two_commits parser inp shaA shaB urlA urlB userA userB :
  parser "fix: a" = Some (mkCAst "fix" None "a" []) ->
  parser "feat: b" = Some (mkCAst "feat" None "b" []) ->
  in_title inp = "Release" ->
  in_excludeTypes inp = "" ->
  in_reverseOrder inp = false ->
  login userA <> "" ->
  login userB <> "" ->
  blocks (changelog parser inp
            [mkCommit ("abc1234" +:+ shaA) "fix: a" urlA (Some userA);
             mkCommit ("def5678" +:+ shaB) "feat: b" urlB (Some userB)])
  = [Header "Release";
     Section ":sparkles: *New Features*";
     Section ("b by " +:+ login userB +:+ " def5678");
     Divider;
     Section ":bug: *Bug Fixes*";
     Section ("a by " +:+ login userA +:+ " abc1234")].
Proof.
  intros HA HB Htitle Hex Hrev HuA HuB.
  rewrite changelog_view, Htitle, Hex, Hrev. cbn [blocks].
  unfold parsedFrom, breakingFrom. cbn [flat_map message].
  rewrite HA, HB.
  destruct userA as [[|a la] ua]; [done|].
  destruct userB as [[|b lb] ub]; [done|].
  vm_compute. reflexivity.
Qed.

Lemma C8_two_commits_witness :
  blocks (changelog Sample.parser Sample.inputs [Sample.fixA; Sample.featB])
  = [Header "Release";
     Section ":sparkles: *New Features*";
     Section "b by hubot def5678";
     Divider;
     Section ":bug: *Bug Fixes*";
     Section "a by octocat abc1234"].
Proof.
  apply (C8_two_commits Sample.parser Sample.inputs
           "f0e9d8c7b6a5f4e3d2c1b0a9f8e7d6c5b" "a1b2c3d4e5f60718293a4b5c6d7e8f901"
           "https://github.com/acme/widget/commit/abc1234"
           "https://github.com/acme/widget/commit/def5678"
           Sample.octocat Sample.hubot);
    (reflexivity || discriminate).
Defined.

(** ** Dividers (lines 190-248) *)

Lemma divider_after_prefix (l1 l2 pre post : list Block) :
  ~ In Divider l1 ->
  l1 ++ l2 = pre ++ Divider :: post ->
  exists pre', pre = l1 ++ pre' /\ l2 = pre' ++ Divider :: post.
Proof.
  revert pre. induction l1 as [|b l1 IH]; intros pre Hno Heq.
  - by exists pre.
  - destruct pre as [|p pre]; simpl in Heq; injection Heq as -> Heq.
    + exfalso. apply Hno. by left.
    + destruct (IH pre) as (pre' & -> & ->); [|done|by exists pre'].
      intros Hin. apply Hno. by right.
Qed.

Lemma titleBlocks_no_divider title : ~ In Divider (titleBlocks title).
Proof.
  unfold titleBlocks. destruct (negb _); simpl; intros H; [|exact H].
  destruct H as [H|[]]. discriminate H.
Qed.

Lemma breakingBlocks_no_divider breakingChanges :
  ~ In Divider (breakingBlocks breakingChanges).
Proof.
  unfold breakingBlocks. destruct breakingChanges as [|bc bcs];
    [intros []|].
  intros [H|H]; [discriminate H|].
  apply in_map_iff in H as (x & Hx & _). discriminate Hx.
Qed.

Lemma groupBlocks_no_divider commitsParsed type :
  ~ In Divider (groupBlocks commitsParsed type).
Proof.
  unfold groupBlocks, commitLines. intros [H|H]; [discriminate H|].
  apply in_map_iff in H as (x & Hx & _). discriminate Hx.
Qed.

Lemma joinGroups_divider commitsParsed rules :
  (forall rule, In rule rules -> In rule types) ->
  forall first pre post,
    joinGroups first (map (groupBlocks commitsParsed) rules)
    = pre ++ Divider :: post ->
    exists heading rest, post = heading :: rest /\ isTypeHeading heading.
Proof.
  induction rules as [|rule rules IH]; intros Htable first pre post Heq.
  - by destruct pre.
  - assert (Hrest : forall r, In r rules -> In r types)
      by (intros r Hr; apply Htable; by right).
    cbn [map joinGroups] in Heq. destruct first.
    + apply divider_after_prefix in Heq as (pre' & _ & Heq);
        [|apply groupBlocks_no_divider].
      by apply (IH Hrest false pre' post).
    + destruct pre as [|p pre]; simpl in Heq; injection Heq as Heq.
      * exists (Section (typeText rule)), (commitLines rule commitsParsed
          ++ joinGroups false (map (groupBlocks commitsParsed) rules)).
        split; [by rewrite <- Heq|]. exists rule. split; [|done].
        apply Htable. by left.
      * subst p.
        change (groupBlocks commitsParsed rule
                  ++ joinGroups false (map (groupBlocks commitsParsed) rules)
                = pre ++ Divider :: post) in H.
        apply divider_after_prefix in H as (pre' & _ & Heq);
          [|apply groupBlocks_no_divider].
        by apply (IH Hrest false pre' post).
Qed.

Lemma buildBlocks_divider title breakingChanges commitsParsed excludeTypes
    pre post :
  buildBlocks title breakingChanges commitsParsed excludeTypes
  = pre ++ Divider :: post ->
  exists heading rest, post = heading :: rest /\ isTypeHeading heading.
Proof.
  rewrite buildBlocks_view. intros Heq.
  apply divider_after_prefix in Heq as (pre1 & _ & Heq);
    [|apply titleBlocks_no_divider].
  apply divider_after_prefix in Heq as (pre2 & _ & Heq);
    [|apply breakingBlocks_no_divider].
  apply joinGroups_divider in Heq; [done|].
  intros rule Hr. unfold renderedTypes in Hr. by apply filter_In in Hr as [? _].
Qed.

(** C10: in the blocks of every run, the first block is not a divider,
    the last block is not a divider, no divider follows a divider, and the
    block after a divider is the heading of one of the types of the
    table. *)
Theorem C10_dividers title breakingChanges commitsParsed excludeTypes :
  let out := buildBlocks title breakingChanges commitsParsed excludeTypes in
  head out <> Some Divider
  /\ last out <> Some Divider
  /\ (forall pre post, out <> pre ++ Divider :: Divider :: post)
  /\ (forall pre post,
        out = pre ++ Divider :: post ->
        exists heading rest, post = heading :: rest /\ isTypeHeading heading).
Proof.
  intros out. subst out. split; [|split; [|split]].
  - rewrite buildBlocks_view. unfold titleBlocks, breakingBlocks.
    destruct (negb _); [done|]. destruct breakingChanges; [|done].
    simpl. by destruct (renderedTypes _ _).
  - intros Hlast. apply last_Some in Hlast as [pre Heq].
    apply buildBlocks_divider in Heq as (heading & rest & Hnil & _). done.
  - intros pre post Heq.
    apply buildBlocks_divider in Heq as (heading & rest & [= <- _] & Hh).
    destruct Hh as (type & _ & Hh). done.
  - intros pre post. apply buildBlocks_divider.
Qed.

Lemma C10_dividers_witness :
  exists heading rest,
    [Section ":bug: *Bug Fixes*"; Section "a by octocat abc1234"]
    = heading :: rest
    /\ isTypeHeading heading.
Proof.
  apply (proj2 (proj2 (proj2
           (C10_dividers "Release" []
              (fst (parseCommits Sample.parser false [Sample.fixA; Sample.featB]))
              (commaList ""))))
           [Header "Release"; Section ":sparkles: *New Features*";
            Section "b by hubot def5678"]
           [Section ":bug: *Bug Fixes*"; Section "a by octocat abc1234"]).
  reflexivity.
Defined.

(** ** More on the tag range (lines 38-90) *)

Lemma truthy_false s : JS.truthy s = false <-> s = "".
Proof. destruct s; simpl; split; congruence. Qed.

Lemma truthy_iff s : JS.truthy s = true <-> s <> "".
Proof. destruct s; simpl; split; congruence. Qed.

Lemma resolveTags_inr lastTags tag fromTag toTag latestTag previousTag :
  resolveTags lastTags tag fromTag toTag = inr (latestTag, previousTag)
  <-> (tag <> "" /\ fromTag = "" /\ toTag = "" /\ name latestTag = tag
       /\ exists more, lastTags = latestTag :: previousTag :: more)
      \/ (tag = "" /\ fromTag <> "" /\ toTag <> ""
          /\ latestTag = mkTagRef fromTag None
          /\ previousTag = mkTagRef toTag None).
Proof.
  unfold resolveTags. split.
  - destruct (JS.truthy tag) eqn:Ht; simpl.
    + destruct (JS.truthy fromTag) eqn:Hf; simpl; [done|].
      destruct (JS.truthy toTag) eqn:Hto; simpl; [done|].
      apply truthy_iff in Ht. apply truthy_false in Hf, Hto.
      destruct lastTags as [|l [|p more]]; simpl; try done.
      destruct (String.eqb (name l) tag) eqn:He; simpl; [|done].
      intros [= <- <-]. apply String.eqb_eq in He.
      left. repeat split; try done. by exists more.
    + apply truthy_false in Ht.
      destruct (JS.truthy fromTag) eqn:Hf; simpl; [|done].
      destruct (JS.truthy toTag) eqn:Hto; simpl; [|done].
      apply truthy_iff in Hf, Hto. intros [= <- <-]. by right.
  - intros [(Ht & -> & -> & Hn & more & ->)|(-> & Hf & Hto & -> & ->)].
    + apply truthy_iff in Ht. rewrite Ht. simpl.
      apply String.eqb_eq in Hn. by rewrite Hn.
    + apply truthy_iff in Hf, Hto. simpl. by rewrite Hf, Hto.
Qed.

(** X1: the resolver succeeds in two cases only: a tag alone, with at
    least two tags in the repository of which the first has the name of
    the tag (it yields the first two); or no tag and both [fromTag] and
    [toTag] (it yields them, without targets). *)
Theorem X1_resolveTags_success lastTags tag fromTag toTag latestTag previousTag :
  resolveTags lastTags tag fromTag toTag = inr (latestTag, previousTag)
  <-> (tag <> "" /\ fromTag = "" /\ toTag = "" /\ name latestTag = tag
       /\ exists more, lastTags = latestTag :: previousTag :: more)
      \/ (tag = "" /\ fromTag <> "" /\ toTag <> ""
          /\ latestTag = mkTagRef fromTag None
          /\ previousTag = mkTagRef toTag None).
Proof. apply resolveTags_inr. Qed.

Lemma X1_resolveTags_success_witness :
  resolveTags Sample.tags "v1.1.0" "" ""
  = inr (mkTagRef "v1.1.0" (Some "abc1234f0e9d8c7b6a5f4e3d2c1b0a9f8e7d6c5b"),
         mkTagRef "v1.0.0" (Some "5566778899aabbccddeeff00112233445566aabb"))
  /\ ("v1.1.0" <> "" /\ "" = "" /\ "" = "" /\ "v1.1.0" = "v1.1.0"
      /\ exists more,
           Sample.tags
           = mkTagRef "v1.1.0" (Some "abc1234f0e9d8c7b6a5f4e3d2c1b0a9f8e7d6c5b")
             :: mkTagRef "v1.0.0" (Some "5566778899aabbccddeeff00112233445566aabb")
             :: more).
Proof.
  assert (H : "v1.1.0" <> "" /\ "" = "" /\ "" = "" /\ "v1.1.0" = "v1.1.0"
      /\ exists more,
           Sample.tags
           = mkTagRef "v1.1.0" (Some "abc1234f0e9d8c7b6a5f4e3d2c1b0a9f8e7d6c5b")
             :: mkTagRef "v1.0.0" (Some "5566778899aabbccddeeff00112233445566aabb")
             :: more).
  { split; [discriminate|]. split; [reflexivity|]. split; [reflexivity|].
    split; [reflexivity|]. exists []. reflexivity. }
  split; [|exact H].
  apply (proj2 (X1_resolveTags_success Sample.tags "v1.1.0" "" ""
                  (mkTagRef "v1.1.0" (Some "abc1234f0e9d8c7b6a5f4e3d2c1b0a9f8e7d6c5b"))
                  (mkTagRef "v1.0.0" (Some "5566778899aabbccddeeff00112233445566aabb")))).
  left. exact H.
Defined.

(** Closes one direction of a case of the resolver's decision table. *)
Ltac resolve_case :=
  try done; try congruence;
  try (intros H; decompose [and or ex] H; subst; solve [done | congruence]);
  try (intros [= <-]);
  try (intros _);
  try (repeat split; try done; solve [eauto 10 | left; done | right; done]).

(** X2: each failure of the resolver has one cause.  It reports both forms
    when the tag comes with [fromTag] or [toTag]; no form when there is no
    tag and [fromTag] or [toTag] is missing; and, for a tag alone, no
    latest tag on an empty tag list, no previous tag on a list of one, and
    a mismatch, naming the given tag, when the first of two or more tags
    has another name. *)
Theorem X2_resolveTags_failures lastTags tag fromTag toTag :
  (resolveTags lastTags tag fromTag toTag = inl (AmbiguousRangeInput true)
   <-> tag <> "" /\ (fromTag <> "" \/ toTag <> ""))
  /\ (resolveTags lastTags tag fromTag toTag = inl (AmbiguousRangeInput false)
      <-> tag = "" /\ (fromTag = "" \/ toTag = ""))
  /\ (resolveTags lastTags tag fromTag toTag = inl NoLatestTag
      <-> tag <> "" /\ fromTag = "" /\ toTag = "" /\ lastTags = [])
  /\ (resolveTags lastTags tag fromTag toTag = inl NoPreviousTag
      <-> tag <> "" /\ fromTag = "" /\ toTag = ""
          /\ exists only, lastTags = [only])
  /\ (forall given,
        resolveTags lastTags tag fromTag toTag = inl (TagMismatch given)
        <-> given = tag /\ tag <> "" /\ fromTag = "" /\ toTag = ""
            /\ exists first second more,
                 lastTags = first :: second :: more /\ name first <> tag).
Proof.
  unfold resolveTags.
  destruct tag as [|a tag]; simpl.
  - destruct fromTag as [|b fromTag], toTag as [|c toTag]; simpl;
      repeat split; resolve_case.
  - destruct fromTag as [|b fromTag]; simpl;
      [destruct toTag as [|c toTag]; simpl; [|repeat split; resolve_case]
      |repeat split; resolve_case].
    destruct lastTags as [|l [|p more]]; cbn.
    + repeat split; resolve_case.
    + repeat split; resolve_case.
    + destruct (String.eqb (name l) (String a tag)) eqn:He; cbn.
      * apply String.eqb_eq in He. repeat split; resolve_case.
      * apply String.eqb_neq in He. repeat split; resolve_case.
Qed.

Lemma X2_resolveTags_failures_witness :
  resolveTags Sample.tags "v1.1.0" "v0.9.0" "" = inl (AmbiguousRangeInput true)
  /\ resolveTags Sample.tags "" "v0.9.0" "" = inl (AmbiguousRangeInput false)
  /\ resolveTags Sample.tags "v2.0.0" "" "" = inl (TagMismatch "v2.0.0").
Proof.
  pose proof (X2_resolveTags_failures Sample.tags "v1.1.0" "v0.9.0" "")
    as (Hboth & _).
  pose proof (X2_resolveTags_failures Sample.tags "" "v0.9.0" "")
    as (_ & Hnone & _).
  pose proof (X2_resolveTags_failures Sample.tags "v2.0.0" "" "")
    as (_ & _ & _ & _ & Hmis).
  split; [|split].
  - apply Hboth. split; [discriminate|]. left. discriminate.
  - apply Hnone. split; [reflexivity|]. right. reflexivity.
  - apply Hmis. split; [reflexivity|]. split; [discriminate|].
    split; [reflexivity|]. split; [reflexivity|].
    eexists _, _, _. split; [reflexivity|]. discriminate.
Defined.

(** ** More on the fetch loop (lines 94-114) *)

Lemma fetchLoop_shape api range :
  forall fuel curPage acc reqs commits requested,
    fetchLoop api fuel range curPage acc reqs = Some (commits, requested) ->
    exists n,
      1 <= n <= fuel
      /\ requested = reqs ++ seq (curPage + 1) n
      /\ commits
         = acc ++ concat (map (fun page => data_commits (api range page))
                              (seq (curPage + 1) n))
      /\ data_total_commits (api range (curPage + n))
         <= (curPage + n - 1) * 100
            + length (data_commits (api range (curPage + n)))
      /\ (forall page, curPage + 1 <= page < curPage + n ->
            (page - 1) * 100 + length (data_commits (api range page))
            < data_total_commits (api range page)).
Proof.
  induction fuel as [|fuel IH]; intros k acc reqs commits requested;
    cbn [fetchLoop]; [done|].
  destruct (_ <? _) eqn:Hmore.
  - intros Hrun. apply IH in Hrun as (n & Hn & -> & -> & Hstop & Hgo).
    apply Nat.ltb_lt in Hmore.
    exists (S n). split; [lia|].
    replace (k + 1 + 1) with (S (k + 1)) by lia. cbn [seq map concat].
    rewrite <- !app_assoc. split; [done|]. split; [done|]. split.
    + by replace (k + S n) with (k + 1 + n) by lia.
    + intros page Hpage. destruct (decide (page = k + 1)) as [->|Hne].
      * exact Hmore.
      * apply Hgo. lia.
  - intros [= <- <-]. apply Nat.ltb_ge in Hmore.
    exists 1. split; [lia|]. cbn [seq map concat]. rewrite app_nil_r.
    split; [done|]. split; [done|]. split; [exact Hmore|]. intros page. lia.
Qed.

(** X3: whatever the endpoint answers, a fetch that returns has requested
    the pages [1 .. n] in this order, once each, for some [n >= 1]; it
    returns the commits of these pages in page order; page [n] is the
    first page at which the commits counted so far, taking the earlier
    pages as full, reach the total that the page declares. *)
Theorem X3_fetch_shape api fuel range commits requested :
  fetchCommits api fuel range = Some (commits, requested) ->
  exists n,
    1 <= n <= fuel
    /\ requested = seq 1 n
    /\ commits = pagesUpTo (api range) n
    /\ data_total_commits (api range n)
       <= (n - 1) * 100 + length (data_commits (api range n))
    /\ (forall page, 1 <= page < n ->
          (page - 1) * 100 + length (data_commits (api range page))
          < data_total_commits (api range page)).
Proof.
  unfold fetchCommits. intros Hrun.
  apply fetchLoop_shape in Hrun as (n & Hn & -> & -> & Hstop & Hgo).
  exists n. split; [done|]. split; [done|]. split; [done|].
  split; [exact Hstop|]. intros page Hpage. apply Hgo. lia.
Qed.

Lemma X3_fetch_shape_witness :
  exists n,
    1 <= n <= 5
    /\ [1; 2; 3] = seq 1 n
    /\ replicate 250 Sample.wip
       = pagesUpTo (Sample.serve (replicate 250 Sample.wip) "v1.0.0...v1.1.0") n
    /\ data_total_commits
         (Sample.serve (replicate 250 Sample.wip) "v1.0.0...v1.1.0" n)
       <= (n - 1) * 100
          + length (data_commits
                      (Sample.serve (replicate 250 Sample.wip)
                         "v1.0.0...v1.1.0" n))
    /\ (forall page, 1 <= page < n ->
          (page - 1) * 100
          + length (data_commits
                      (Sample.serve (replicate 250 Sample.wip)
                         "v1.0.0...v1.1.0" page))
          < data_total_commits
              (Sample.serve (replicate 250 Sample.wip) "v1.0.0...v1.1.0" page)).
Proof.
  apply (X3_fetch_shape (Sample.serve (replicate 250 Sample.wip)) 5
           "v1.0.0...v1.1.0" (replicate 250 Sample.wip) [1; 2; 3]).
  vm_compute. reflexivity.
Defined.

Lemma fetchLoop_bounded api range B :
  (forall page, data_total_commits (api range page) <= B) ->
  forall slack curPage acc reqs fuel,
    curPage + slack = pagesOf B ->
    slack + 1 <= fuel ->
    exists commits n,
      1 <= n <= slack + 1
      /\ fetchLoop api fuel range curPage acc reqs
         = Some (commits, reqs ++ seq (curPage + 1) n).
Proof.
  intros Hbound.
  induction slack as [|slack IH]; intros k acc reqs fuel Hk Hfuel;
    (destruct fuel as [|fuel]; [lia|]); cbn [fetchLoop];
    destruct (_ <? _) eqn:Hmore.
  - exfalso. apply Nat.ltb_lt in Hmore.
    pose proof (Hbound (k + 1)) as Hb.
    assert (B <= k * 100) by (apply pagesOf_le; lia). lia.
  - eexists _, 1. split; [lia|]. reflexivity.
  - destruct (IH (k + 1) (acc ++ data_commits (api range (k + 1)))
                (reqs ++ [k + 1]) fuel) as (commits & n & Hn & ->); [lia..|].
    exists commits, (S n). split; [lia|].
    replace (k + 1 + 1) with (S (k + 1)) by lia. cbn [seq].
    by rewrite <- app_assoc.
  - eexists _, 1. split; [lia|]. reflexivity.
Qed.

(** X4: against an endpoint that never declares more than [B] commits,
    the loop ends whatever the pages hold, after at most
    [ceil(B / 100) + 1] requests. *)
Theorem X4_fetch_terminates api range B :
  (forall page, data_total_commits (api range page) <= B) ->
  forall fuel, pagesOf B + 1 <= fuel ->
    exists commits n,
      1 <= n <= pagesOf B + 1
      /\ fetchCommits api fuel range = Some (commits, seq 1 n).
Proof.
  intros Hbound fuel Hfuel. unfold fetchCommits.
  destruct (fetchLoop_bounded api range B Hbound (pagesOf B) 0 [] [] fuel)
    as (commits & n & Hn & Hrun); [lia..|].
  exists commits, n. split; [lia|]. exact Hrun.
Qed.

(** An endpoint that declares 150 commits and serves none. *)
Lemma X4_fetch_terminates_witness :
  exists commits n,
    1 <= n <= pagesOf 150 + 1
    /\ fetchCommits (fun _ _ => mkCompareResponse 150 []) 3 "v1.0.0...v1.1.0"
       = Some (commits, seq 1 n).
Proof.
  apply (X4_fetch_terminates (fun _ _ => mkCompareResponse 150 [])
           "v1.0.0...v1.1.0" 150).
  - intros page. simpl. lia.
  - vm_compute. lia.
Defined.

(** ** The range that is requested (lines 84-85 and 104) *)

Lemma main_afterRange lastTags api parser post str fuel inp
    latestTag previousTag :
  resolveTags lastTags (in_tag inp) (in_fromTag inp) (in_toTag inp)
  = inr (latestTag, previousTag) ->
  main lastTags api parser post str fuel inp
  = afterRange api parser post str fuel inp
      (name previousTag +:+ "..." +:+ name latestTag).
Proof.
  intros Hres. unfold main, afterRange, basehead. rewrite Hres.
  destruct (fetchCommits _ _ _) as [[commits reqs]|]; [|done].
  by destruct commits.
Qed.

(** X5: with [fromTag] and [toTag] the run compares the range
    [toTag...fromTag] ([toTag] is the base and [fromTag] the head) and
    does not depend on the tags of the repository; with a tag that is the
    first tag of the repository it compares from the second tag to the
    given tag. *)
Theorem X5_requested_range lastTags api parser post str fuel inp :
  (in_tag inp = "" -> in_fromTag inp <> "" -> in_toTag inp <> "" ->
     main lastTags api parser post str fuel inp
     = afterRange api parser post str fuel inp
         (in_toTag inp +:+ "..." +:+ in_fromTag inp))
  /\ (forall first second more,
        in_tag inp <> "" -> in_fromTag inp = "" -> in_toTag inp = "" ->
        lastTags = first :: second :: more ->
        name first = in_tag inp ->
        main lastTags api parser post str fuel inp
        = afterRange api parser post str fuel inp
            (name second +:+ "..." +:+ in_tag inp)).
Proof.
  split.
  - intros Ht Hf Hto.
    rewrite (main_afterRange _ _ _ _ _ _ _ (mkTagRef (in_fromTag inp) None)
               (mkTagRef (in_toTag inp) None)); [done|].
    apply resolveTags_inr. by right.
  - intros first second more Ht Hf Hto Htags Hname.
    rewrite (main_afterRange _ _ _ _ _ _ _ first second);
      [by rewrite Hname|].
    apply resolveTags_inr. left. repeat split; try done. by exists more.
Qed.

Lemma X5_requested_range_witness :
  main Sample.tags (Sample.serve [Sample.fixA]) Sample.parser Sample.postOk
       Sample.stringify 1
       {| in_tag := ""; in_fromTag := "v1.1.0"; in_toTag := "v1.0.0";
          in_title := ""; in_slackBotToken := ""; in_slackChannelId := "";
          in_excludeTypes := "";
          in_includeInvalidCommits := false; in_reverseOrder := false |}
  = afterRange (Sample.serve [Sample.fixA]) Sample.parser Sample.postOk
      Sample.stringify 1
      {| in_tag := ""; in_fromTag := "v1.1.0"; in_toTag := "v1.0.0";
         in_title := ""; in_slackBotToken := ""; in_slackChannelId := "";
         in_excludeTypes := "";
         in_includeInvalidCommits := false; in_reverseOrder := false |}
      "v1.0.0...v1.1.0"
  /\ main Sample.tags (Sample.serve [Sample.fixA]) Sample.parser Sample.postOk
          Sample.stringify 1 Sample.inputs
     = afterRange (Sample.serve [Sample.fixA]) Sample.parser Sample.postOk
         Sample.stringify 1 Sample.inputs "v1.0.0...v1.1.0".
Proof.
  split.
  - apply (proj1 (X5_requested_range Sample.tags (Sample.serve [Sample.fixA])
                    Sample.parser Sample.postOk Sample.stringify 1
                    {| in_tag := ""; in_fromTag := "v1.1.0";
                       in_toTag := "v1.0.0";
                       in_title := ""; in_slackBotToken := "";
                       in_slackChannelId := ""; in_excludeTypes := "";
                       in_includeInvalidCommits := false;
                       in_reverseOrder := false |}));
      [reflexivity | discriminate | discriminate].
  - apply (proj2 (X5_requested_range Sample.tags (Sample.serve [Sample.fixA])
                    Sample.parser Sample.postOk Sample.stringify 1
                    Sample.inputs)
             (mkTagRef "v1.1.0" (Some "abc1234f0e9d8c7b6a5f4e3d2c1b0a9f8e7d6c5b"))
             (mkTagRef "v1.0.0" (Some "5566778899aabbccddeeff00112233445566aabb"))
             []);
      [discriminate | reflexivity | reflexivity | reflexivity | reflexivity].
Defined.

(** ** Comma-separated inputs (lines 27-28) *)

Lemma split_count sep s :
  length (JS.split sep s) = 1 + occurrences sep s.
Proof.
  induction s as [|c s IH]; simpl; [done|].
  destruct (Ascii.eqb c sep); simpl; [by rewrite IH|].
  destruct (JS.split sep s); simpl in *; lia.
Qed.

Lemma split_pieces sep s piece :
  In piece (JS.split sep s) -> occurrences sep piece = 0.
Proof.
  revert piece. induction s as [|c s IH]; intros piece; simpl.
  - intros [<-|[]]. done.
  - destruct (Ascii.eqb c sep) eqn:Hc.
    + intros [<-|Hin]; [done|by apply IH].
    + destruct (JS.split sep s) as [|first rest]; simpl.
      * intros [<-|[]]. simpl. by rewrite Hc.
      * intros [<-|Hin].
        -- simpl. rewrite Hc. apply IH. by left.
        -- apply IH. by right.
Qed.

Lemma trimStart_occurrences c s :
  occurrences c s = 0 -> occurrences c (JS.trimStart s) = 0.
Proof.
  induction s as [|a s IH]; simpl; [done|].
  destruct (JS.is_white_space a); simpl; [|done]. intros H. apply IH. lia.
Qed.

Lemma trimEnd_occurrences c s :
  occurrences c s = 0 -> occurrences c (JS.trimEnd s) = 0.
Proof.
  induction s as [|a s IH]; simpl; [done|]. intros H.
  assert (Ha : (if Ascii.eqb a c then 1 else 0) = 0) by lia.
  assert (Hs : occurrences c (JS.trimEnd s) = 0) by (apply IH; lia).
  destruct (JS.trimEnd s) eqn:Ht.
  - destruct (JS.is_white_space a); simpl; [done|lia].
  - simpl in *. lia.
Qed.

Lemma trimStart_head s c rest :
  JS.trimStart s = String c rest -> JS.is_white_space c = false.
Proof.
  induction s as [|a s IH]; simpl; [done|].
  destruct (JS.is_white_space a) eqn:Ha; [done|]. by intros [= <- _].
Qed.

Lemma trimEnd_head s c rest :
  JS.trimEnd s = String c rest -> exists rest', s = String c rest'.
Proof.
  destruct s as [|a s]; simpl; [done|].
  destruct (JS.trimEnd s).
  - destruct (JS.is_white_space a); [done|]. intros [= <- _]. by eexists.
  - intros [= <- _]. by eexists.
Qed.

Lemma trimEnd_last s :
  forall front c,
    JS.trimEnd s = front +:+ String c "" -> JS.is_white_space c = false.
Proof.
  induction s as [|a s IH]; intros front c; simpl.
  - by destruct front.
  - destruct (JS.trimEnd s) as [|b rest] eqn:Ht.
    + destruct (JS.is_white_space a) eqn:Ha; [by destruct front|].
      destruct front as [|f front]; simpl.
      * by intros [= <-].
      * intros [= _ Hfront]. by destruct front.
    + destruct front as [|f front]; simpl; [done|].
      intros [= _ Hfront]. by apply (IH front c).
Qed.

(** X6: a comma-separated input gives one entry more than it has commas;
    in particular the list of channel ids and the list of excluded types
    are never empty. *)
Theorem X6_commaList_length input :
  length (commaList input) = 1 + occurrences "," input.
Proof. unfold commaList. rewrite length_map. apply split_count. Qed.

(** X7: no entry of a comma-separated input holds a comma, starts with a
    white-space character (tab, line feed, vertical tab, form feed,
    carriage return, space, no-break space) or ends with one. *)
Theorem X7_commaList_entries input entry :
  In entry (commaList input) ->
  occurrences "," entry = 0
  /\ (forall c rest, entry = String c rest -> JS.is_white_space c = false)
  /\ (forall front c,
        entry = front +:+ String c "" -> JS.is_white_space c = false).
Proof.
  unfold commaList. intros Hin.
  apply in_map_iff in Hin as (piece & <- & Hpiece).
  apply split_pieces in Hpiece. unfold JS.trim. split; [|split].
  - by apply trimEnd_occurrences, trimStart_occurrences.
  - intros c rest Hentry.
    apply trimEnd_head in Hentry as [rest' Hstart].
    by apply trimStart_head in Hstart.
  - intros front c Hentry. by apply trimEnd_last in Hentry.
Qed.

Lemma X7_commaList_entries_witness :
  commaList (" C01 ," +:+ String "160" "C02 , ") = ["C01"; "C02"; ""]
  /\ occurrences "," "C02" = 0
  /\ (forall c rest, "C02" = String c rest -> JS.is_white_space c = false)
  /\ (forall front c,
        "C02" = front +:+ String c "" -> JS.is_white_space c = false).
Proof.
  split; [reflexivity|].
  apply (X7_commaList_entries (" C01 ," +:+ String "160" "C02 , ") "C02").
  vm_compute. right. left. reflexivity.
Defined.

(** The no-break space is stripped like the other white space, and the
    Latin-1 capitals are lower-cased like A-Z. *)
Example trim_no_break_space :
  JS.trim (String "160" ("C02" +:+ String "160" (String "009" "")))
  = "C02".
Proof. reflexivity. Qed.

Example lower_latin1 :
  JS.toLowerCase (String "201" (String "215" (String "222" "Fix")))
  = String "233" (String "215" (String "254" "fix")).
Proof. reflexivity. Qed.

(** ** More on exclusion and listing (lines 214-248) *)

Lemma excluded_ext excludeTypes1 excludeTypes2 rule :
  (forall alias, In alias (Rule.types rule) ->
     (In alias excludeTypes1 <-> In alias excludeTypes2)) ->
  excluded excludeTypes1 rule = excluded excludeTypes2 rule.
Proof.
  intros Hsame.
  destruct (excluded excludeTypes1 rule) eqn:H1,
           (excluded excludeTypes2 rule) eqn:H2; try done.
  - apply excluded_iff in H1 as (alias & Ha & Hin).
    assert (excluded excludeTypes2 rule = true)
      by (apply excluded_iff; exists alias; split; [done|by apply Hsame]).
    congruence.
  - apply excluded_iff in H2 as (alias & Ha & Hin).
    assert (excluded excludeTypes1 rule = true)
      by (apply excluded_iff; exists alias; split; [done|by apply Hsame]).
    congruence.
Qed.

(** X8: only the entries of [excludeTypes] that are type names of the
    table count: two lists that hold the same type names of the table
    give the same blocks.  Entries are compared as they are written, so an
    empty entry or a name in another case excludes nothing. *)
Theorem X8_exclusion_by_table_names title breakingChanges commitsParsed
    excludeTypes1 excludeTypes2 :
  (forall rule alias,
      In rule types -> In alias (Rule.types rule) ->
      (In alias excludeTypes1 <-> In alias excludeTypes2)) ->
  buildBlocks title breakingChanges commitsParsed excludeTypes1
  = buildBlocks title breakingChanges commitsParsed excludeTypes2.
Proof.
  intros Hsame. rewrite !buildBlocks_view. do 4 f_equal.
  unfold renderedTypes. apply filter_ext_in. intros rule Hrule.
  unfold isRendered.
  rewrite (excluded_ext excludeTypes1 excludeTypes2 rule); [done|].
  intros alias Ha. by apply (Hsame rule).
Qed.

Lemma X8_exclusion_by_table_names_witness :
  buildBlocks "Release" []
    (fst (parseCommits Sample.parser false [Sample.choreBreaking]))
    (commaList "")
  = buildBlocks "Release" []
      (fst (parseCommits Sample.parser false [Sample.choreBreaking]))
      (commaList "Chore, unknown").
Proof.
  apply X8_exclusion_by_table_names.
  intros rule alias Hrule Halias. unfold types in Hrule. simpl in Hrule.
  repeat (destruct Hrule as [<-|Hrule]); try done;
    simpl in Halias; repeat (destruct Halias as [<-|Halias]); try done;
    (split; [intros [H|[]] | intros [H|[H|[]]]]; discriminate H).
Defined.

Lemma listed_under_one_type excludeTypes commit :
  flat_map (fun type =>
              if negb (excluded excludeTypes type)
                 && JS.includes (Rule.types type) (pc_type commit)
              then [commit] else [])
           types
  = if isListed excludeTypes commit then [commit] else [].
Proof.
  unfold isListed, types. cbn [flat_map existsb Rule.types].
  unfold JS.includes. cbn [existsb].
  generalize (pc_type commit). intros t.
  repeat match goal with
         | |- context [excluded excludeTypes ?r] =>
             generalize (excluded excludeTypes r); intros ?
         end.
  repeat match goal with
         | |- context [String.eqb t ?a] =>
             destruct (String.eqb_spec t a) as [->|?]; cbn
         end;
    rewrite ?andb_false_r, ?andb_true_r, ?orb_false_r; cbn;
    repeat match goal with
           | |- context [negb ?b] => destruct b; cbn
           end;
    reflexivity.
Qed.

Lemma rendered_matching excludeTypes commitsParsed rules :
  flat_map (fun type => matching type commitsParsed)
           (List.filter (isRendered excludeTypes commitsParsed) rules)
  = flat_map (fun type =>
                if negb (excluded excludeTypes type)
                then matching type commitsParsed else [])
             rules.
Proof.
  induction rules as [|type rules IH]; [done|].
  cbn [List.filter flat_map]. unfold isRendered at 1.
  destruct (excluded excludeTypes type); cbn [negb andb]; [exact IH|].
  destruct (matching type commitsParsed) eqn:Hm; cbn [length];
    [exact IH|].
  cbn [Nat.ltb Nat.leb negb flat_map]. rewrite Hm. by rewrite IH.
Qed.

Lemma matching_cons_perm excludeTypes commit commitsParsed rules :
  Permutation
    (flat_map (fun type =>
                 if negb (excluded excludeTypes type)
                 then matching type (commit :: commitsParsed) else [])
              rules)
    (flat_map (fun type =>
                 if negb (excluded excludeTypes type)
                    && JS.includes (Rule.types type) (pc_type commit)
                 then [commit] else [])
              rules
       ++ flat_map (fun type =>
                      if negb (excluded excludeTypes type)
                      then matching type commitsParsed else [])
                   rules).
Proof.
  induction rules as [|type rules IH]; [done|].
  cbn [flat_map]. rewrite IH. unfold matching at 1. cbn [List.filter].
  fold (matching type commitsParsed).
  destruct (negb (excluded excludeTypes type)); cbn [andb]; [|done].
  destruct (JS.includes (Rule.types type) (pc_type commit)).
  - cbn [app]. constructor.
    rewrite !app_assoc. apply Permutation_app_tail, Permutation_app_comm.
  - cbn [app]. rewrite !app_assoc.
    apply Permutation_app_tail, Permutation_app_comm.
Qed.

Lemma listed_permutation excludeTypes commitsParsed :
  Permutation
    (flat_map (fun type => matching type commitsParsed)
              (renderedTypes excludeTypes commitsParsed))
    (List.filter (isListed excludeTypes) commitsParsed).
Proof.
  unfold renderedTypes. rewrite rendered_matching.
  induction commitsParsed as [|commit commitsParsed IH].
  - cbn [List.filter]. unfold matching. cbn [List.filter].
    induction types as [|type rules IHr]; [done|].
    cbn [flat_map]. by destruct (negb _).
  - rewrite matching_cons_perm, listed_under_one_type, IH.
    cbn [List.filter]. by destruct (isListed excludeTypes commit).
Qed.

(** X9: the commits listed under the rendered types are, each exactly
    once, the parsed commits whose type is a name of a rule of the table
    that is not skipped: no commit is listed under two types, a commit of
    another type is listed nowhere, and no other commit is lost. *)
Theorem X9_each_commit_once excludeTypes commitsParsed :
  Permutation
    (flat_map (fun type => matching type commitsParsed)
              (renderedTypes excludeTypes commitsParsed))
    (List.filter
       (fun commit =>
          existsb (fun type =>
                     negb (excluded excludeTypes type)
                     && JS.includes (Rule.types type) (pc_type commit))
                  types)
       commitsParsed).
Proof. apply listed_permutation. Qed.

(** ** Counting blocks (lines 175-248) *)

Lemma joinGroups_length groups :
  forall first,
    length (joinGroups first groups)
    = length (concat groups)
      + (if first then length groups - 1 else length groups).
Proof.
  induction groups as [|g groups IH]; intros first; cbn [joinGroups concat].
  - by destruct first.
  - rewrite !length_app, IH. destruct first; cbn [length]; lia.
Qed.

Lemma groups_length commitsParsed rules :
  length (concat (map (groupBlocks commitsParsed) rules))
  = length rules
    + length (flat_map (fun type => matching type commitsParsed) rules).
Proof.
  induction rules as [|type rules IH]; [done|].
  cbn [map concat flat_map]. rewrite !length_app, IH.
  unfold groupBlocks, commitLines. cbn [length]. rewrite length_map. lia.
Qed.

Lemma joinGroups_dividers commitsParsed rules :
  forall first,
    length (List.filter isDivider
              (joinGroups first (map (groupBlocks commitsParsed) rules)))
    = if first then length rules - 1 else length rules.
Proof.
  assert (Hgroup : forall type,
             List.filter isDivider (groupBlocks commitsParsed type) = []).
  { intros type. unfold groupBlocks, commitLines. cbn [List.filter isDivider].
    induction (matching type commitsParsed) as [|c cs IH]; [done|].
    cbn [map List.filter isDivider]. exact IH. }
  induction rules as [|type rules IH]; intros first; cbn [map joinGroups].
  - by destruct first.
  - rewrite List.filter_app, length_app, IH.
    destruct first; cbn [List.filter isDivider]; rewrite Hgroup;
      cbn [length]; lia.
Qed.

(** X10: the number of blocks of a payload is one for a non-empty title,
    one plus the number of breaking changes when there is one, one per
    rendered type, one per listed commit, and the dividers: one per
    rendered type, less one when there is no breaking change. *)
Theorem X10_block_count title breakingChanges commitsParsed excludeTypes :
  length (buildBlocks title breakingChanges commitsParsed excludeTypes)
  = (if String.eqb title "" then 0 else 1)
    + match breakingChanges with
      | [] => 0
      | _ :: _ => 1 + length breakingChanges
      end
    + length (renderedTypes excludeTypes commitsParsed)
    + length (List.filter (isListed excludeTypes) commitsParsed)
    + dividerCount breakingChanges
        (length (renderedTypes excludeTypes commitsParsed)).
Proof.
  rewrite buildBlocks_view, !length_app, joinGroups_length, groups_length.
  rewrite (Permutation_length (listed_permutation excludeTypes commitsParsed)).
  rewrite length_map. unfold titleBlocks, breakingBlocks, dividerCount.
  destruct (String.eqb title ""); destruct breakingChanges;
    cbn [negb length noBreaking]; rewrite ?length_map; cbn [length]; lia.
Qed.

(** X11: the blocks hold one divider per rendered type, less one when
    there is no breaking change (and none when nothing is rendered). *)
Theorem X11_divider_count title breakingChanges commitsParsed excludeTypes :
  length (List.filter isDivider
            (buildBlocks title breakingChanges commitsParsed excludeTypes))
  = dividerCount breakingChanges
      (length (renderedTypes excludeTypes commitsParsed)).
Proof.
  rewrite buildBlocks_view, !List.filter_app, !length_app, joinGroups_dividers.
  assert (Htitle : List.filter isDivider (titleBlocks title) = []).
  { unfold titleBlocks. by destruct (negb _). }
  assert (Hbreak : List.filter isDivider (breakingBlocks breakingChanges) = []).
  { unfold breakingBlocks. destruct breakingChanges as [|bc bcs]; [done|].
    cbn [List.filter isDivider].
    induction (bc :: bcs) as [|x l IH]; [done|].
    cbn [map List.filter isDivider]. exact IH. }
  rewrite Htitle, Hbreak. unfold dividerCount.
  by destruct (noBreaking breakingChanges).
Qed.

(** X12: a header block occurs in the blocks only as the first block, and
    then it holds the title, which is not empty. *)
Theorem X12_header_first title breakingChanges commitsParsed excludeTypes
    (i : nat) (t : string) :
  buildBlocks title breakingChanges commitsParsed excludeTypes !! i
  = Some (Header t) ->
  i = 0 /\ t = title /\ title <> "".
Proof.
  rewrite buildBlocks_view.
  assert (Hrest : forall j,
             (breakingBlocks breakingChanges
                ++ joinGroups (noBreaking breakingChanges)
                     (map (groupBlocks commitsParsed)
                          (renderedTypes excludeTypes commitsParsed))) !! j
             <> Some (Header t)).
  { intros j Hj. apply list_elem_of_lookup_2, list_elem_of_In in Hj.
    apply in_app_or in Hj as [Hj|Hj].
    - unfold breakingBlocks in Hj. destruct breakingChanges; [done|].
      destruct Hj as [Hj|Hj]; [discriminate Hj|].
      apply in_map_iff in Hj as (x & Hx & _). discriminate Hx.
    - revert Hj. generalize (noBreaking breakingChanges).
      induction (renderedTypes excludeTypes commitsParsed) as [|r rs IH];
        intros first; cbn [map joinGroups]; [done|].
      intros Hj. apply in_app_or in Hj as [Hj|Hj]; [|by apply (IH false)].
      assert (Hg : ~ In (Header t) (groupBlocks commitsParsed r)).
      { unfold groupBlocks, commitLines. intros [H|H]; [discriminate H|].
        apply in_map_iff in H as (x & Hx & _). discriminate Hx. }
      destruct first; [done|]. destruct Hj as [Hj|Hj]; [discriminate Hj|done]. }
  unfold titleBlocks. destruct (String.eqb_spec title "") as [->|Hne];
    cbn [negb app].
  - intros Hi. by apply Hrest in Hi.
  - destruct i as [|i]; cbn.
    + by intros [= <-].
    + intros Hi. by apply Hrest in Hi.
Qed.

Lemma X12_header_first_witness :
  buildBlocks "Release" []
    (fst (parseCommits Sample.parser false [Sample.fixA])) (commaList "") !! 0
  = Some (Header "Release")
  /\ (0 = 0 /\ "Release" = "Release" /\ "Release" <> "").
Proof.
  split; [reflexivity|].
  apply (X12_header_first "Release" []
           (fst (parseCommits Sample.parser false [Sample.fixA]))
           (commaList "") 0 "Release").
  reflexivity.
Defined.

(** ** Rejected messages in the changelog (lines 148-158 and 17) *)

Lemma matching_one_type (t : string) type commitsParsed :
  (forall commit, In commit commitsParsed -> pc_type commit = t) ->
  matching type commitsParsed
  = if JS.includes (Rule.types type) t then commitsParsed else [].
Proof.
  intros Hall. unfold matching.
  induction commitsParsed as [|c cs IH]; cbn [List.filter].
  - by destruct (JS.includes _ _).
  - rewrite (Hall c) by (by left). rewrite IH by (intros x Hx; apply Hall; by right).
    by destruct (JS.includes _ _).
Qed.

Lemma rendered_all_other excludeTypes commitsParsed :
  commitsParsed <> [] ->
  (forall commit, In commit commitsParsed -> pc_type commit = "other") ->
  ~ In "other" excludeTypes ->
  renderedTypes excludeTypes commitsParsed
  = [Rule.mk ["other"] "Other Changes" ":flying_saucer:" None].
Proof.
  intros Hne Hall Hex.
  assert (Hkept : excluded excludeTypes
                    (Rule.mk ["other"] "Other Changes" ":flying_saucer:" None)
                  = false).
  { destruct (excluded _ _) eqn:He; [|done].
    apply excluded_iff in He as (alias & [<-|[]] & Hin). done. }
  unfold renderedTypes, types. cbn [List.filter]. unfold isRendered.
  rewrite !(matching_one_type "other") by exact Hall.
  cbn [Rule.types JS.includes existsb String.eqb Ascii.eqb Bool.eqb orb andb].
  cbn [length Nat.ltb Nat.leb negb]. rewrite !andb_false_r, Hkept.
  destruct commitsParsed; [done|]. reflexivity.
Qed.

(** X13: when the parser rejects every fetched message and
    [includeInvalidCommits] is set, with [other] not excluded, the
    changelog is the title block and one section, Other Changes, that
    lists every fetched commit with its whole message, in fetch order
    (in reverse with [reverseOrder]). *)
Theorem X13_rejected_listed_as_other parser inp commits :
  commits <> [] ->
  in_includeInvalidCommits inp = true ->
  (forall commit, In commit commits -> parser (message commit) = None) ->
  ~ In "other" (commaList (in_excludeTypes inp)) ->
  blocks (changelog parser inp commits)
  = titleBlocks (in_title inp)
      ++ Section ":flying_saucer: *Other Changes*"
         :: map (fun commit => Section (commitText (fallbackOf commit)))
                (if in_reverseOrder inp then rev commits else commits).
Proof.
  intros Hne Hincl Hbad Hex. rewrite changelog_view, Hincl. cbn [blocks].
  assert (Hp : flat_map (parsedFrom parser true) commits
               = map fallbackOf commits).
  { clear -Hbad. induction commits as [|c cs IH]; [done|].
    cbn [flat_map map]. unfold parsedFrom at 1.
    rewrite (Hbad c) by (by left). cbn [app]. f_equal.
    apply IH. intros x Hx. apply Hbad. by right. }
  assert (Hb : flat_map (breakingFrom parser) commits = []).
  { clear -Hbad. induction commits as [|c cs IH]; [done|].
    cbn [flat_map]. unfold breakingFrom at 1.
    rewrite (Hbad c) by (by left). apply IH. intros x Hx. apply Hbad. by right. }
  rewrite Hp, Hb, buildBlocks_view.
  assert (Hlisted :
            (if in_reverseOrder inp then rev (map fallbackOf commits)
             else map fallbackOf commits)
            = map fallbackOf
                (if in_reverseOrder inp then rev commits else commits))
    by (destruct (in_reverseOrder inp); [by rewrite map_rev|done]).
  rewrite Hlisted.
  set (listed := if in_reverseOrder inp then rev commits else commits).
  assert (Hlne : map fallbackOf listed <> []).
  { subst listed. destruct (in_reverseOrder inp).
    - destruct commits as [|c cs]; [done|]. cbn [rev].
      rewrite map_app. by destruct (map fallbackOf (rev cs)).
    - by destruct commits. }
  assert (Hall : forall commit,
             In commit (map fallbackOf listed) -> pc_type commit = "other").
  { intros commit Hin. by apply in_map_iff in Hin as (c & <- & _). }
  rewrite (rendered_all_other _ _ Hlne Hall Hex).
  cbn [breakingBlocks noBreaking map joinGroups app].
  unfold groupBlocks, commitLines.
  rewrite (matching_one_type "other") by exact Hall.
  cbn [Rule.types JS.includes existsb String.eqb Ascii.eqb Bool.eqb orb andb].
  rewrite app_nil_r, map_map. reflexivity.
Qed.

Lemma X13_rejected_listed_as_other_witness :
  blocks (changelog Sample.parser
            {| in_tag := "v1.1.0"; in_fromTag := ""; in_toTag := "";
               in_title := "Release";
               in_slackBotToken := ""; in_slackChannelId := "";
               in_excludeTypes := "chore";
               in_includeInvalidCommits := true; in_reverseOrder := false |}
            [Sample.wip])
  = [Header "Release";
     Section ":flying_saucer: *Other Changes*";
     Section "updated stuff by octocat 77aa88b"].
Proof.
  apply (X13_rejected_listed_as_other Sample.parser
           {| in_tag := "v1.1.0"; in_fromTag := ""; in_toTag := "";
              in_title := "Release";
              in_slackBotToken := ""; in_slackChannelId := "";
              in_excludeTypes := "chore";
              in_includeInvalidCommits := true; in_reverseOrder := false |}
           [Sample.wip]).
  - discriminate.
  - reflexivity.
  - intros commit [<-|[]]. reflexivity.
  - intros [H|[]]. discriminate H.
Defined.

(** ** More on the sink (lines 257-280) *)

Lemma token_length token : (0 <? String.length token) = JS.truthy token.
Proof. by destruct token. Qed.

(** X14: without a bot token the run sets the [payload] output to the
    serialized payload, whatever the channel input is; with a token it
    posts once per entry of the channel input, in the order of the
    entries, each time with the token and the same payload, so at least
    once. *)
Theorem X14_sink post str token input payload :
  (token = "" ->
     deliverOrEmit post str token (commaList input) payload
     = Output "payload" (str payload))
  /\ (token <> "" ->
        deliverOrEmit post str token (commaList input) payload
        = Posted (map (fun channelId =>
                         (mkPostRequest token channelId payload,
                          post (mkPostRequest token channelId payload)))
                      (commaList input))
        /\ length (commaList input) = 1 + occurrences "," input).
Proof.
  rewrite deliverOrEmit_guard, token_length. split.
  - by intros ->.
  - intros Hne. apply truthy_iff in Hne. rewrite Hne. split; [done|].
    unfold commaList. rewrite length_map. apply split_count.
Qed.

Lemma X14_sink_witness :
  deliverOrEmit Sample.postOk Sample.stringify "" (commaList "C01,C02")
    (mkPayload "" [])
  = Output "payload" (Sample.stringify (mkPayload "" []))
  /\ deliverOrEmit Sample.postOk Sample.stringify "xoxb-1" (commaList "C01, C02")
       (mkPayload "" [])
     = Posted [(mkPostRequest "xoxb-1" "C01" (mkPayload "" []),
                mkPostResponse 200 "ok");
               (mkPostRequest "xoxb-1" "C02" (mkPayload "" []),
                mkPostResponse 200 "ok")].
Proof.
  split.
  - apply (proj1 (X14_sink Sample.postOk Sample.stringify "" "C01,C02"
                    (mkPayload "" []))).
    reflexivity.
  - apply (proj2 (X14_sink Sample.postOk Sample.stringify "xoxb-1" "C01, C02"
                    (mkPayload "" []))).
    discriminate.
Defined.

Lemma filter_perm {A} (f : A -> bool) (l l' : list A) :
  Permutation l l' -> Permutation (List.filter f l) (List.filter f l').
Proof.
  induction 1 as [|x l l' _ IH|x y l|l l' l'' _ IH1 _ IH2]; cbn [List.filter].
  - constructor.
  - destruct (f x); [by constructor|done].
  - destruct (f x), (f y); try done. constructor.
  - by etrans.
Qed.

Lemma failures_of_posts post token payload channelIds :
  deliveryFailures
    (map (fun channelId =>
            (mkPostRequest token channelId payload,
             post (mkPostRequest token channelId payload)))
         channelIds)
  = flat_map (fun channelId =>
                if status (post (mkPostRequest token channelId payload)) =? 200
                then []
                else [resdata (post (mkPostRequest token channelId payload))])
             channelIds.
Proof.
  unfold deliveryFailures.
  induction channelIds as [|id ids IH]; [done|].
  cbn [map List.filter flat_map snd].
  destruct (status (post (mkPostRequest token id payload)) =? 200);
    cbn [negb map app snd]; by rewrite IH.
Qed.

(** X15: when the run posts, every channel is posted to, whatever the
    other responses are; in whatever order [arrived] the responses come
    back, the calls to [core.setFailed] carry the bodies of the responses
    whose status is not 200, one call for each, and there is no call
    exactly when every response has status 200. *)
Theorem X15_delivery_failures post str token channelIds payload :
  token <> "" -> channelIds <> [] ->
  let posts :=
    map (fun channelId =>
           (mkPostRequest token channelId payload,
            post (mkPostRequest token channelId payload)))
        channelIds in
  deliverOrEmit post str token channelIds payload = Posted posts
  /\ forall arrived,
       Permutation arrived posts ->
       Permutation
         (deliveryFailures arrived)
         (flat_map (fun channelId =>
                      let res := post (mkPostRequest token channelId payload) in
                      if status res =? 200 then [] else [resdata res])
                   channelIds)
       /\ (deliveryFailures arrived = []
           <-> forall channelId,
                 In channelId channelIds ->
                 status (post (mkPostRequest token channelId payload)) = 200).
Proof.
  intros Htoken Hids posts. split.
  - unfold deliverOrEmit.
    rewrite token_length, (proj2 (truthy_iff token) Htoken).
    by destruct channelIds.
  - intros arrived Harrived.
    assert (Hperm : Permutation (deliveryFailures arrived)
                      (deliveryFailures posts)).
    { unfold deliveryFailures. by apply Permutation_map, filter_perm. }
    subst posts. rewrite failures_of_posts in Hperm. cbv zeta.
    split; [exact Hperm|].
    assert (Hnone :
              flat_map (fun channelId =>
                          if status (post (mkPostRequest token channelId payload))
                             =? 200
                          then []
                          else [resdata
                                  (post (mkPostRequest token channelId payload))])
                       channelIds = []
              <-> forall channelId,
                    In channelId channelIds ->
                    status (post (mkPostRequest token channelId payload)) = 200).
    { clear. induction channelIds as [|id ids IH]; cbn [flat_map].
      - split; [by intros _ ? []|done].
      - destruct (status (post (mkPostRequest token id payload)) =? 200) eqn:Hs;
          cbn [app].
        + apply Nat.eqb_eq in Hs. rewrite IH. split.
          * intros H x [<-|Hx]; [done|by apply H].
          * intros H x Hx. apply H. by right.
        + apply Nat.eqb_neq in Hs. split; [done|].
          intros H. exfalso. apply Hs, H. by left. }
    rewrite <- Hnone. split.
    + intros Hnil. rewrite Hnil in Hperm. by apply Permutation_nil in Hperm.
    + intros Hnil. rewrite Hnil in Hperm.
      by apply Permutation_sym, Permutation_nil in Hperm.
Qed.

(** Two channels fail and the second response arrives first. *)
Lemma X15_delivery_failures_witness :
  let post := fun req =>
    if String.eqb (channel req) "C03" then mkPostResponse 200 "ok"
    else mkPostResponse 429 ("err-" +:+ channel req) in
  let payload := mkPayload "" [] in
  let arrived :=
    [(mkPostRequest "xoxb-1" "C02" payload, post (mkPostRequest "xoxb-1" "C02" payload));
     (mkPostRequest "xoxb-1" "C03" payload, post (mkPostRequest "xoxb-1" "C03" payload));
     (mkPostRequest "xoxb-1" "C01" payload, post (mkPostRequest "xoxb-1" "C01" payload))] in
  deliveryFailures arrived = ["err-C02"; "err-C01"]
  /\ Permutation (deliveryFailures arrived) ["err-C01"; "err-C02"].
Proof.
  intros post payload arrived. split; [reflexivity|].
  apply (proj2 (X15_delivery_failures post Sample.stringify "xoxb-1"
                  ["C01"; "C02"; "C03"] payload
                  ltac:(discriminate) ltac:(discriminate))
           arrived).
  subst arrived. cbn [map].
  apply perm_trans with
    (l' := [(mkPostRequest "xoxb-1" "C02" payload,
             post (mkPostRequest "xoxb-1" "C02" payload));
            (mkPostRequest "xoxb-1" "C01" payload,
             post (mkPostRequest "xoxb-1" "C01" payload));
            (mkPostRequest "xoxb-1" "C03" payload,
             post (mkPostRequest "xoxb-1" "C03" payload))]).
  - apply perm_skip, perm_swap.
  - apply perm_swap.
Defined.



(** ** What parsing keeps (lines 122-163) *)

(** X17: [commitsParsed] holds, in fetch order, one entry for each
    fetched commit that parses, and with [includeInvalidCommits] one for
    each of the others too; each entry carries the sha, the url, the
    author login and the author url of its commit. *)
Theorem X17_parse_keeps_commits parser includeInvalidCommits commits :
  map (fun parsed =>
         (pc_sha parsed, pc_url parsed, pc_author parsed, pc_authorUrl parsed))
      (fst (parseCommits parser includeInvalidCommits commits))
  = map (fun commit =>
           (sha commit, html_url commit,
            login <$> author commit, user_html_url <$> author commit))
        (List.filter (fun commit =>
                        includeInvalidCommits || parses parser commit)
                     commits).
Proof.
  rewrite parseCommits_view. cbn [fst].
  induction commits as [|c commits IH]; [done|].
  cbn [flat_map List.filter]. rewrite map_app, IH.
  unfold parsedFrom, parses.
  destruct (parser (message c)); [by rewrite orb_true_r|].
  by destruct includeInvalidCommits.
Qed.

(** ** Failure messages (lines 39, 68, 71, 75, 89, 117) *)

Lemma append_cons (x : ascii) (a b : string) :
  String x a +:+ b = String x (a +:+ b).
Proof. reflexivity. Qed.

Lemma append_assoc (a b c : string) : (a +:+ b) +:+ c = a +:+ (b +:+ c).
Proof.
  induction a as [|x a IH]; [reflexivity|].
  rewrite !append_cons. f_equal. exact IH.
Qed.

Lemma append_inj_l (prefix a b : string) :
  prefix +:+ a = prefix +:+ b -> a = b.
Proof.
  induction prefix as [|x prefix IH]; [done|].
  rewrite !append_cons. intros [= H]. by apply IH.
Qed.

Lemma append_inj_dot (a b : string) : a +:+ "." = b +:+ "." -> a = b.
Proof.
  revert b. induction a as [|x a IH]; intros [|y b]; rewrite ?append_cons.
  - done.
  - intros [= _ H]. by destruct b.
  - intros [= _ H]. by destruct a.
  - intros [= -> H]. f_equal. by apply IH.
Qed.

Lemma failure_message_inj f1 f2 :
  failure_message f1 = failure_message f2 -> f1 = f2.
Proof.
  destruct f1 as [[|]| | |t1|], f2 as [[|]| | |t2|];
    try reflexivity; try (simpl; discriminate).
  unfold failure_message. intros H.
  apply append_inj_l, append_inj_dot in H. by subst.
Qed.

(** X18: the failures are told apart by their messages: two different
    failures never have the same message; in particular the message of a
    tag mismatch tells which tag was given. *)
Theorem X18_failure_messages f1 f2 :
  f1 <> f2 -> failure_message f1 <> failure_message f2.
Proof. intros Hne Heq. by apply Hne, failure_message_inj. Qed.

Lemma X18_failure_messages_witness :
  failure_message (TagMismatch "v2.0.0") <> failure_message (TagMismatch "v2.1.0")
  /\ failure_message (AmbiguousRangeInput true)
     <> failure_message (AmbiguousRangeInput false).
Proof.
  split.
  - apply (X18_failure_messages (TagMismatch "v2.0.0") (TagMismatch "v2.1.0")).
    discriminate.
  - apply (X18_failure_messages (AmbiguousRangeInput true)
             (AmbiguousRangeInput false)).
    discriminate.
Defined.

(** ** The short sha of a commit line (line 238) *)

Lemma substring0_length n s :
  String.length (JS.substring0 n s) = n `min` String.length s.
Proof.
  revert s. induction n as [|n IH]; intros [|c s]; simpl; try done.
  by rewrite IH.
Qed.

Lemma substring0_prefix n s : exists rest, s = JS.substring0 n s +:+ rest.
Proof.
  revert s. induction n as [|n IH]; intros s.
  - exists s. by destruct s.
  - destruct s as [|c s]; [by exists ""|].
    destruct (IH s) as [rest Hrest]. exists rest.
    cbn [JS.substring0]. rewrite append_cons. by rewrite <- Hrest.
Qed.

(** X19: every commit line ends with a space and the short sha: the first
    seven characters of the commit's sha, or the whole sha when it is
    shorter. *)
Theorem X19_commit_line_sha commit :
  (exists front,
      commitText commit
      = front +:+ " " +:+ JS.substring0 7 (pc_sha commit))
  /\ String.length (JS.substring0 7 (pc_sha commit))
     = 7 `min` String.length (pc_sha commit)
  /\ exists rest, pc_sha commit = JS.substring0 7 (pc_sha commit) +:+ rest.
Proof.
  split; [|split; [apply substring0_length|apply substring0_prefix]].
  unfold commitText.
  destruct (pc_author commit) as [author|];
    [destruct (JS.truthy author)|].
  - exists (slackScope commit +:+ pc_subject commit +:+ " by " +:+ author).
    by rewrite !append_assoc.
  - exists (slackScope commit +:+ pc_subject commit).
    by rewrite !append_assoc.
  - exists (slackScope commit +:+ pc_subject commit).
    by rewrite !append_assoc.
Qed.

(** ** A whole run over a paged range *)

Lemma fetch_wellPaged api range T fuel :
  wellPaged (api range) T ->
  1 `max` pagesOf T <= fuel ->
  fetchCommits api fuel range
  = Some (pagesUpTo (api range) (1 `max` pagesOf T),
          seq 1 (1 `max` pagesOf T)).
Proof.
  intros HP Hfuel.
  assert (Hn : exists more, 1 `max` pagesOf T = S more)
    by (exists (1 `max` pagesOf T - 1); lia).
  destruct Hn as [more Hn]. unfold fetchCommits.
  rewrite (fetchLoop_wellPaged api range T HP more 0 [] [] fuel) by lia.
  by rewrite Hn.
Qed.

(** X20: a run with a tag that is the first tag of the repository, over a
    range of [T >= 1] commits served in pages of 100, ends when given
    [ceil(T / 100)] turns of the loop, does not fail, and hands to the sink
    the changelog of all the commits of the pages [1 .. ceil(T / 100)]. *)
Theorem X20_run_over_pages lastTags api parser post str fuel inp
    first second more T :
  in_tag inp <> "" -> in_fromTag inp = "" -> in_toTag inp = "" ->
  lastTags = first :: second :: more ->
  name first = in_tag inp ->
  wellPaged (api (name second +:+ "..." +:+ in_tag inp)) T ->
  1 <= T ->
  pagesOf T <= fuel ->
  main lastTags api parser post str fuel inp
  = Some (deliverOrEmit post str (in_slackBotToken inp)
            (commaList (in_slackChannelId inp))
            (changelog parser inp
               (pagesUpTo (api (name second +:+ "..." +:+ in_tag inp))
                          (pagesOf T))))
  /\ length (pagesUpTo (api (name second +:+ "..." +:+ in_tag inp)) (pagesOf T))
     = T.
Proof.
  intros Ht Hf Hto Htags Hname HP HT Hfuel.
  assert (Hpages : 1 `max` pagesOf T = pagesOf T).
  { assert (~ pagesOf T <= 0) by (rewrite pagesOf_le; lia). lia. }
  assert (Hlen : length (pagesUpTo (api (name second +:+ "..." +:+ in_tag inp))
                           (pagesOf T)) = T).
  { rewrite (pagesUpTo_length _ T HP) by lia.
    assert (T <= pagesOf T * 100) by (by apply pagesOf_le). lia. }
  split; [|exact Hlen].
  rewrite (main_afterRange _ _ _ _ _ _ _ first second);
    [|apply resolveTags_inr; left; repeat split; try done; by exists more].
  rewrite Hname. unfold afterRange.
  rewrite (fetch_wellPaged api _ T fuel HP) by lia. rewrite Hpages.
  destruct (pagesUpTo _ _) eqn:Hcommits; [|done].
  simpl in Hlen. lia.
Qed.

Lemma X20_run_over_pages_witness :
  main Sample.tags (Sample.serve (replicate 150 Sample.fixA)) Sample.parser
       Sample.postOk Sample.stringify 2 Sample.inputs
  = Some (deliverOrEmit Sample.postOk Sample.stringify "" (commaList "")
            (changelog Sample.parser Sample.inputs
               (pagesUpTo (Sample.serve (replicate 150 Sample.fixA)
                             "v1.0.0...v1.1.0")
                          (pagesOf 150))))
  /\ length (pagesUpTo (Sample.serve (replicate 150 Sample.fixA)
                          "v1.0.0...v1.1.0")
                       (pagesOf 150))
     = 150.
Proof.
  apply (X20_run_over_pages Sample.tags
           (Sample.serve (replicate 150 Sample.fixA)) Sample.parser
           Sample.postOk Sample.stringify 2 Sample.inputs
           (mkTagRef "v1.1.0" (Some "abc1234f0e9d8c7b6a5f4e3d2c1b0a9f8e7d6c5b"))
           (mkTagRef "v1.0.0" (Some "5566778899aabbccddeeff00112233445566aabb"))
           [] 150).
  - discriminate.
  - reflexivity.
  - reflexivity.
  - reflexivity.
  - reflexivity.
  - apply (serve_wellPaged (replicate 150 Sample.fixA)).
  - lia.
  - vm_compute. lia.
Defined.
